(** * Organizer mail views of pretalx ([pretalx/orga/views/mails.py])

    A shallow embedding of the request handlers of the module and the
    properties its specification states about them.

    The handlers are thin adapters over the ORM, the message framework and
    the mail queue.  The embedding keeps the handlers' own control flow and
    makes the collaborators explicit:

    - the data store is a record of tables ([World]); the tables of queued
      mails and of mail templates map a primary key to a row;
    - every handler is a computation in a state monad over [World];
    - flash messages are collected in [flash], and the calls that reach
      collaborators with an effect (ORM writes, [log_action], [send]) are
      appended to [journal] in the order in which they happen. *)

From stdpp Require Import gmap strings list fin_maps sorting.
From Stdlib Require Import ZArith Ascii String.

Local Open Scope string_scope.
Local Open Scope list_scope.
Local Open Scope Z_scope.

(** ** Python strings

    A [str] is modelled by a Rocq [string] whose characters are the code
    points below 256.  On these, [strip], [lower] and [split] are the
    methods of Python's [str]. *)

Module Py.

(** [str.isspace] for one character: TAB..CR, FS..US, SPACE, NEL, NBSP. *)
Definition isspace (c : ascii) : bool :=
  let n := N_of_ascii c in
  ((9 <=? n) && (n <=? 13) || (28 <=? n) && (n <=? 32)
   || (n =? 133) || (n =? 160))%N.

(** [str.lower] for one character: A..Z and the Latin-1 capitals. *)
Definition lower_char (c : ascii) : ascii :=
  let n := N_of_ascii c in
  if ((65 <=? n) && (n <=? 90)
      || (192 <=? n) && (n <=? 222) && negb (n =? 215))%N
  then ascii_of_N (n + 32) else c.

Fixpoint lower (s : string) : string :=
  match s with
  | EmptyString => EmptyString
  | String c s' => String (lower_char c) (lower s')
  end.

Fixpoint lstrip (s : string) : string :=
  match s with
  | EmptyString => EmptyString
  | String c s' => if isspace c then lstrip s' else s
  end.

Definition rstrip (s : string) : string :=
  String.rev (lstrip (String.rev s)).

Definition strip (s : string) : string := rstrip (lstrip s).

(** [s.split(',')]: the pieces between commas; never the empty list. *)
Fixpoint split_comma (s : string) : list string :=
  match s with
  | EmptyString => [EmptyString]
  | String c s' =>
      if Ascii.eqb c "," then EmptyString :: split_comma s'
      else match split_comma s' with
           | piece :: rest => String c piece :: rest
           | [] => [String c EmptyString]
           end
  end.

(** The whitespace that [int] skips around a number.  It is not that of
    [str.isspace]: the separators FS..US (28..31) are whitespace for
    [strip] and are refused by [int]. *)
Definition isspace_int (c : ascii) : bool :=
  let n := N_of_ascii c in
  ((9 <=? n) && (n <=? 13) || (n =? 32) || (n =? 133) || (n =? 160))%N.

Fixpoint lstrip_int (s : string) : string :=
  match s with
  | EmptyString => EmptyString
  | String c s' => if isspace_int c then lstrip_int s' else s
  end.

Definition strip_int (s : string) : string :=
  String.rev (lstrip_int (String.rev (lstrip_int s))).

(** [int(s)] for a [str] in base 10: surrounding whitespace, an optional
    sign, then digits with single underscores between them; [None] is
    [ValueError].  The result is not bounded. *)
Definition digit (c : ascii) : option Z :=
  let n := N_of_ascii c in
  if ((48 <=? n) && (n <=? 57))%N then Some (Z.of_N n - 48) else None.

Fixpoint digits (s : string) (acc : Z) (after_digit : bool) : option Z :=
  match s with
  | EmptyString => if after_digit then Some acc else None
  | String c s' =>
      match digit c with
      | Some d => digits s' (10 * acc + d) true
      | None =>
          if Ascii.eqb c "_" && after_digit then digits s' acc false
          else None
      end
  end.

Definition int (s : string) : option Z :=
  match strip_int s with
  | String "+" s' => digits s' 0 false
  | String "-" s' => Z.opp <$> digits s' 0 false
  | s' => digits s' 0 false
  end.

(** Truth value of a [str]. *)
Definition truthy (s : string) : bool :=
  match s with EmptyString => false | _ => true end.

End Py.

Example strip_example : Py.strip "  A@X.com " = "A@X.com".
Proof. reflexivity. Qed.

Example split_example :
  Py.split_comma "a@x.com, A@X.com,,b@y.com" =
  ["a@x.com"; " A@X.com"; ""; "b@y.com"].
Proof. reflexivity. Qed.

Example int_example :
  Py.int " 1_2 " = Some 12 ∧ Py.int "-7" = Some (-7) ∧ Py.int "1__2" = None
  ∧ Py.int "" = None ∧ Py.int "7_" = None ∧ Py.int "x" = None.
Proof. repeat split; reflexivity. Qed.

(** A unit separator is stripped by [strip] and refused by [int]. *)
Example int_separator_example :
  let s := String (ascii_of_N 31) "8" in
  Py.strip s = "8" ∧ Py.int s = None
  ∧ Py.int (String (ascii_of_N 160) "8") = Some 8.
Proof. repeat split; reflexivity. Qed.

Example lower_example : Py.lower "A@X.com" = "a@x.com".
Proof. reflexivity. Qed.

(** ** Data model *)

(** A nullable text column or an optional form value: [None] is Python's
    [None]. *)
Abbreviation text := (option string) (only parsing).

Record User := {
  user_pk : Z;
  user_email : string
}.

Record Submission := {
  sub_event : Z;
  code : string;
  track_id : option Z;
  submission_type_id : Z;
  state : string;
  resources : list Z;
  speakers : list Z
}.

Record Team := {
  team_events : list Z;
  is_reviewer : bool;
  members : list Z
}.

Record QueuedMail := {
  event : Z;
  to : text;
  to_users : list Z;
  reply_to : text;
  cc : text;
  bcc : text;
  subject : text;
  text_ : text;
  sent : option Z
}.

Record MailTemplate := {
  tpl_event : Z;
  tpl_subject : text;
  tpl_text : text;
  tpl_reply_to : text;
  tpl_bcc : text
}.

Record Event := {
  event_pk : Z;
  event_email : string
}.

#[export] Instance User_eq_dec : EqDecision User.
Proof. solve_decision. Defined.
#[export] Instance QueuedMail_eq_dec : EqDecision QueuedMail.
Proof. solve_decision. Defined.
#[export] Instance MailTemplate_eq_dec : EqDecision MailTemplate.
Proof. solve_decision. Defined.

(** URLs are kept symbolic: [event.orga_urls.outbox] and so on. *)
Inductive Url :=
| outbox (ev : Z)
| compose_mails (ev : Z)
| mail_templates_url (ev : Z)
| mail_edit (pk : Z).

Inductive Response :=
| Redirect (url : Url)
| TemplateResponse (template_name : string)
| OptionsResponse
| HttpResponseNotAllowed
| Http404
| PermissionDenied
| ServerError (exception : string).

Inductive Level := SUCCESS | ERROR.

(** A flash message: level, untranslated format string, and the value of
    its [count] placeholder when it has one. *)
Record Message := {
  level : Level;
  msg : string;
  count : option nat
}.

Inductive ObjRef :=
| MailRef (pk : option Z)
| TemplateRef (pk : option Z).

(** Calls with an effect outside the handler, in program order. *)
Inductive Effect :=
| Created (obj : ObjRef)
| Saved (obj : ObjRef)
| Deleted (obj : ObjRef)
| AddedToUsers (mail : Z) (user : Z)
| LogAction (action : string) (obj : ObjRef) (person : Z) (orga : bool)
| Send (mail : Z) (requestor : option Z).

#[export] Instance Level_eq_dec : EqDecision Level.
Proof. solve_decision. Defined.
#[export] Instance Message_eq_dec : EqDecision Message.
Proof. solve_decision. Defined.
#[export] Instance ObjRef_eq_dec : EqDecision ObjRef.
Proof. solve_decision. Defined.
#[export] Instance Effect_eq_dec : EqDecision Effect.
Proof. solve_decision. Defined.
#[export] Instance Url_eq_dec : EqDecision Url.
Proof. solve_decision. Defined.
#[export] Instance Response_eq_dec : EqDecision Response.
Proof. solve_decision. Defined.

Record World := {
  users : list User;
  submissions : list Submission;
  teams : list Team;
  queued_mails : gmap Z QueuedMail;
  mail_templates : gmap Z MailTemplate;
  journal : list Effect;
  flash : list Message;
  now : Z
}.

Definition set_queued_mails (f : gmap Z QueuedMail → gmap Z QueuedMail)
    (w : World) : World :=
  {| users := users w; submissions := submissions w; teams := teams w;
     queued_mails := f (queued_mails w);
     mail_templates := mail_templates w;
     journal := journal w; flash := flash w; now := now w |}.

Definition set_mail_templates (f : gmap Z MailTemplate → gmap Z MailTemplate)
    (w : World) : World :=
  {| users := users w; submissions := submissions w; teams := teams w;
     queued_mails := queued_mails w;
     mail_templates := f (mail_templates w);
     journal := journal w; flash := flash w; now := now w |}.

Definition record (e : Effect) (w : World) : World :=
  {| users := users w; submissions := submissions w; teams := teams w;
     queued_mails := queued_mails w;
     mail_templates := mail_templates w;
     journal := journal w ++ [e]; flash := flash w; now := now w |}.

Definition add_message (m : Message) (w : World) : World :=
  {| users := users w; submissions := submissions w; teams := teams w;
     queued_mails := queued_mails w;
     mail_templates := mail_templates w;
     journal := journal w; flash := flash w ++ [m]; now := now w |}.

(** ** The handler monad: state passing over [World] *)

Definition M (A : Type) : Type := World → A * World.

#[export] Instance M_ret : MRet M := λ A a w, (a, w).
#[export] Instance M_bind : MBind M :=
  λ A B k m w, let '(a, w') := m w in k a w'.

Definition get_world : M World := λ w, (w, w).
Definition modify (f : World → World) : M unit := λ w, (tt, f w).

(** [for x in xs: body x] *)
Fixpoint for_each {A} (xs : list A) (body : A → M unit) : M unit :=
  match xs with
  | [] => mret tt
  | x :: xs' => body x;; for_each xs' body
  end.

Definition response_of {A} (r : A * World) : A := fst r.
Definition world_of {A} (r : A * World) : World := snd r.

(** ** Requests and forms *)

Inductive Method := GET | HEAD | POST | PUT | PATCH | DELETE | OPTIONS | TRACE.

#[export] Instance Method_eq_dec : EqDecision Method.
Proof. solve_decision. Defined.

(** A request as the views see it: [request.method], [request.event],
    [request.user], the permissions the acting user holds on the view's
    permission object, [request.GET] and the [pk] URL argument
    ([self.kwargs]; [None] when ['pk' in self.kwargs] is false). *)
Record Request := {
  method : Method;
  req_event : Event;
  req_user : Z;
  perms : gset string;
  req_GET : gmap string string;
  kwargs_pk : option Z
}.

(** Modelled from the spec: [MailDetailForm] is not part of the source.  It is
    the model form bound to one QueuedMail (section 4.4).  [md_is_valid],
    [md_has_changed] and [md_data_form] are the results of
    [form.is_valid()] (which is false for a form made read-only for lack of
    the write permission), [form.has_changed()] and [form.data.get('form')].
    How [form.save()] turns the submitted fields into the row is the
    form's own business and is taken as a parameter: [md_save form w row]
    gives the content that the form stores for the instance [row] in the
    data store [w].  [event] and [sent] are no fields of the form (section
    3: [sent] marks the delivery): the stored row keeps those of the
    instance. *)
Record MailDetailForm := {
  md_is_valid : bool;
  md_has_changed : bool;
  md_data_form : option string;
  md_save : World → QueuedMail → QueuedMail
}.

(** Modelled from the spec: [WriteMailForm] is not part of the source.  The
    record is [form.cleaned_data], typed by the way [form_valid] reads each
    key.  For the two keys read with a default, [additional_recipients] and
    [reply_to], [None] says that the key is absent from the dict; the key
    of a text field that was left blank is present, with the empty
    string. *)
Record WriteMailForm := {
  wm_is_valid : bool;
  cd_submissions : option (list string);
  cd_tracks : option (list Z);
  cd_submission_types : option (list Z);
  cd_recipients : list string;
  cd_additional_recipients : option string;
  cd_reply_to : option text;
  cd_cc : text;
  cd_bcc : text;
  cd_subject : text;
  cd_text : text
}.

(** Modelled from the spec: [MailTemplateForm] is not part of the source; it
    is the model form of a template's subject, text, reply-to and bcc
    (section 3). *)
Record MailTemplateForm := {
  tf_is_valid : bool;
  tf_has_changed : bool;
  tf_subject : text;
  tf_text : text;
  tf_reply_to : text;
  tf_bcc : text
}.

(** ** Collaborators: ORM, messages, audit log, mail queue *)

Definition with_to_users (f : list Z → list Z) (m : QueuedMail) : QueuedMail :=
  {| event := event m; to := to m; to_users := f (to_users m);
     reply_to := reply_to m; cc := cc m; bcc := bcc m;
     subject := subject m; text_ := text_ m; sent := sent m |}.

Definition with_event (ev : Z) (m : QueuedMail) : QueuedMail :=
  {| event := ev; to := to m; to_users := to_users m;
     reply_to := reply_to m; cc := cc m; bcc := bcc m;
     subject := subject m; text_ := text_ m; sent := sent m |}.

Definition with_sent (s : option Z) (m : QueuedMail) : QueuedMail :=
  {| event := event m; to := to m; to_users := to_users m;
     reply_to := reply_to m; cc := cc m; bcc := bcc m;
     subject := subject m; text_ := text_ m; sent := s |}.

(** The primary key the database hands to the next inserted row: one that
    no row of the table has. *)
Definition fresh_pk {A} (table : gmap Z A) : Z :=
  1 + foldr Z.max 0 (map_to_list table).*1.

(** [request.event.queued_mails] *)
Definition event_queued_mails (ev : Event) (w : World) : gmap Z QueuedMail :=
  filter (λ kv, event kv.2 = event_pk ev) (queued_mails w).

(** [request.event.mail_templates] *)
Definition event_mail_templates (ev : Event) (w : World) : gmap Z MailTemplate :=
  filter (λ kv, tpl_event kv.2 = event_pk ev) (mail_templates w).

(** [qs.filter(sent__isnull=True)] *)
Definition sent__isnull (qs : gmap Z QueuedMail) : gmap Z QueuedMail :=
  filter (λ kv, sent kv.2 = None) qs.

(** [QueuedMail.objects.create(...)]: inserts the row and returns its key. *)
Definition QueuedMail_create (row : QueuedMail) : M Z :=
  λ w, let pk := fresh_pk (queued_mails w) in
       (pk, record (Created (MailRef (Some pk)))
              (set_queued_mails (insert pk row) w)).

(** [mail.to_users.add(user)] *)
Definition to_users_add (pk user : Z) : M unit :=
  modify (λ w,
    record (AddedToUsers pk user)
      (set_queued_mails
         (alter (with_to_users (λ us, if decide (user ∈ us) then us
                                      else us ++ [user])) pk) w)).

(** [mail.delete()] *)
Definition QueuedMail_delete (pk : Z) : M unit :=
  modify (λ w, record (Deleted (MailRef (Some pk)))
                 (set_queued_mails (delete pk) w)).

(** [qs.delete()] for a queryset of queued mails. *)
Definition QuerySet_delete (qs : gmap Z QueuedMail) : M unit :=
  for_each (map_to_list qs).*1 QueuedMail_delete.

(** [template.delete()] *)
Definition MailTemplate_delete (pk : Z) : M unit :=
  modify (λ w, record (Deleted (TemplateRef (Some pk)))
                 (set_mail_templates (delete pk) w)).

(** The key of the instance, [None] while it has not been saved. *)
Definition ref_pk (obj : ObjRef) : option Z :=
  match obj with MailRef pk | TemplateRef pk => pk end.

(** Modelled from the spec: [log_action] is not part of the source.
    Section 6: it appends an entry to the audit log of the object.  An
    instance that has not been saved has no key to file the entry under,
    and the call writes nothing. *)
Definition log_action (obj : ObjRef) (action : string) (person : Z)
    (orga : bool) : M unit :=
  match ref_pk obj with
  | Some _ => modify (record (LogAction action obj person orga))
  | None => mret tt
  end.

Definition messages_success (text : string) (n : option nat) : M unit :=
  modify (add_message {| level := SUCCESS; msg := text; count := n |}).

Definition messages_error (text : string) : M unit :=
  modify (add_message {| level := ERROR; msg := text; count := None |}).

(** Modelled from the spec: [QueuedMail.send] is not part of the source.
    Section 6: it delivers the mail and stamps [sent]; the delivery itself is
    opaque and is kept as a [Send] entry of the journal. *)
Definition send (pk : Z) (requestor : option Z) : M unit :=
  modify (λ w, record (Send pk requestor)
                 (set_queued_mails (alter (with_sent (Some (now w))) pk) w)).

(** Modelled from the spec: [QueuedMail.copy_to_draft] is not part of the
    source.  Section 6: it returns a new unsent duplicate. *)
Definition copy_to_draft (mail : QueuedMail) : M Z :=
  QueuedMail_create (with_sent None mail).

(** [User.objects.filter(email__iexact=email).first()]: the users table is
    listed by ascending key.
    Modelled from the spec: the case-insensitive match is the data store's
    (section 6); it compares the lowercased strings. *)
Definition email__iexact (email : string) (u : User) : bool :=
  bool_decide (Py.lower (user_email u) = Py.lower email).

Definition first_user_by_email (email : string) (w : World) : option User :=
  List.find (email__iexact email) (users w).

(** [request.event.submissions] *)
Definition event_submissions (ev : Event) (w : World) : list Submission :=
  filter (λ s, sub_event s = event_pk ev) (submissions w).

(** [User.objects.filter(submissions__in=subs)]: the join of users with the
    given submissions, one result per pair of a user and a submission of
    theirs. *)
Definition users_with_submissions__in (subs : list Submission) (w : World)
    : list Z :=
  flat_map (λ u, flat_map (λ s, if decide (user_pk u ∈ speakers s)
                               then [user_pk u] else []) subs) (users w).

(** [User.objects.filter(teams__in=ts).distinct()] *)
Definition users_with_teams__in_distinct (ts : list Team) (w : World)
    : list Z :=
  remove_dups
    (flat_map (λ u, flat_map (λ t, if decide (user_pk u ∈ members t)
                                  then [user_pk u] else []) ts) (users w)).

(** Modelled from the spec: [request.event.teams] is not part of the source;
    a team belongs to the events listed in [team_events]. *)
Definition event_teams (ev : Event) (w : World) : list Team :=
  filter (λ t, event_pk ev ∈ team_events t) (teams w).

(** Modelled from the spec: the model class [MailTemplate] and its manager
    [MailTemplate.objects] are not part of the source.  Section 3: a
    MailTemplate is event-scoped; the manager answers a query with the
    templates of the event of the running request. *)
Definition MailTemplate_objects (req : Request) (w : World)
    : gmap Z MailTemplate :=
  event_mail_templates (req_event req) w.

(** The keys the database can be asked for: signed 64-bit integers. *)
Definition key_in_range (pk : Z) : Prop := - 2 ^ 63 ≤ pk < 2 ^ 63.

#[export] Instance key_in_range_dec pk : Decision (key_in_range pk).
Proof. unfold key_in_range. apply _. Defined.

(** ** Framework dispatch *)

(** Modelled from the spec: the permission mixins are not part of the source.
    The named permission is checked against the acting user before the rest
    of the dispatch chain runs; a refused request changes nothing. *)
Definition PermissionRequired_dispatch (permission_required : string)
    (req : Request) (super_dispatch : M Response) : M Response :=
  if decide (permission_required ∈ perms req) then super_dispatch
  else mret PermissionDenied.

(** Modelled from the spec: a view of [PermissionRequired] that names no
    permission object of its own is checked on the object of the view,
    [get_object()] (section 6: the permission is resolved against the
    acting user and the scope).  Without an object there is nothing to hold
    the permission on, and the request is refused. *)
Definition PermissionRequired_dispatch_object {A}
    (permission_required : string) (get_object : World → option A)
    (req : Request) (super_dispatch : M Response) : M Response :=
  w ← get_world;
  match get_object w with
  | Some _ =>
      PermissionRequired_dispatch permission_required req super_dispatch
  | None => mret PermissionDenied
  end.

(** [View.dispatch]: the handler named by the request method; [head] is
    [get] when the view has one. *)
Definition View_dispatch (req : Request)
    (get post put : option (M Response)) : M Response :=
  match method req with
  | GET | HEAD => default (mret HttpResponseNotAllowed) get
  | POST => default (mret HttpResponseNotAllowed) post
  | PUT => default (mret HttpResponseNotAllowed) put
  | OPTIONS => mret OptionsResponse
  | PATCH | DELETE | TRACE => mret HttpResponseNotAllowed
  end.

(** [TemplateView] and [ListView]: [get] renders the template. *)
Definition render (template_name : string) : M Response :=
  mret (TemplateResponse template_name).

(** [ProcessFormView.post]; [put] is [post]. *)
Definition ProcessFormView_post (template_name : string) (is_valid : bool)
    (form_valid : M Response) : M Response :=
  if is_valid then form_valid else render template_name.

(** A queryset that has been given an order is a list of keyed rows. *)
Abbreviation rows := (list (Z * QueuedMail)) (only parsing).

(** [qs.order_by('-id')]: by descending key. *)
Definition desc_id (a b : Z * QueuedMail) : Prop := b.1 ≤ a.1.

#[export] Instance desc_id_dec : RelDecision desc_id.
Proof. intros a b. unfold desc_id. apply _. Defined.

Definition order_by_desc_id (qs : gmap Z QueuedMail) : list (Z * QueuedMail) :=
  merge_sort desc_id (map_to_list qs).

(** [qs.filter(sent__isnull=False)] *)
Definition sent__notnull (qs : gmap Z QueuedMail) : gmap Z QueuedMail :=
  filter (λ kv, sent kv.2 ≠ None) qs.

(** [qs.order_by('-sent')] on rows whose [sent] is set: latest first; the
    order among equal timestamps is the database's, here that of a stable
    sort. *)
Definition desc_sent (a b : Z * QueuedMail) : Prop :=
  default 0 (sent b.2) ≤ default 0 (sent a.2).

#[export] Instance desc_sent_dec : RelDecision desc_sent.
Proof. intros a b. unfold desc_sent. apply _. Defined.

Definition order_by_desc_sent (qs : gmap Z QueuedMail)
    : list (Z * QueuedMail) :=
  merge_sort desc_sent (map_to_list qs).

(** Modelled from the spec: the role templates of an event (section 3:
    accept, acknowledge, reject, update) are attributes of [request.event]
    that the source only reads; each is the key of a template or [None]. *)
Record FixedTemplates := {
  accept_template : option Z;
  ack_template : option Z;
  reject_template : option Z;
  update_template : option Z
}.

(** ** The views *)

Module OutboxList.
Definition template_name := "orga/mails/outbox_list.html".
Definition permission_required := "orga.view_mails".

(** [get_queryset]; [filter_queryset] and [sort_queryset] are the helpers of
    the [Filterable] and [Sortable] mixins, which are not part of the
    source and are taken as parameters. *)
Definition get_queryset (filter_queryset sort_queryset : rows → rows)
    (req : Request) (w : World) : rows :=
  let qs := order_by_desc_id
              (sent__isnull (event_queued_mails (req_event req) w)) in
  let qs := filter_queryset qs in
  let qs := sort_queryset qs in
  qs.

(** The page is a rendering of the event's unsent mails; a list view has
    [get] only. *)
Definition dispatch (req : Request) : M Response :=
  PermissionRequired_dispatch permission_required req
    (View_dispatch req (Some (render template_name)) None None).
End OutboxList.

Module SentMail.
Definition template_name := "orga/mails/sent_list.html".
Definition permission_required := "orga.view_mails".

Definition get_queryset (filter_queryset sort_queryset : rows → rows)
    (req : Request) (w : World) : rows :=
  let qs := order_by_desc_sent
              (sent__notnull (event_queued_mails (req_event req) w)) in
  let qs := filter_queryset qs in
  let qs := sort_queryset qs in
  qs.

Definition dispatch (req : Request) : M Response :=
  PermissionRequired_dispatch permission_required req
    (View_dispatch req (Some (render template_name)) None None).
End SentMail.

Module OutboxSend.
Definition permission_required := "orga.send_mails".
Definition template_name := "orga/mails/confirm.html".

Definition queryset (req : Request) (w : World) : gmap Z QueuedMail :=
  let qs := sent__isnull (event_queued_mails (req_event req) w) in
  match kwargs_pk req with
  | Some pk => filter (λ kv, kv.1 = pk) qs
  | None => qs
  end.

(** The [question] of the confirmation page: its format string and the
    value of [count]. *)
Definition question (req : Request) (w : World) : string * nat :=
  ("Do you really want to send {count} mails?", size (queryset req w)).

Definition post (req : Request) : M Response :=
  w ← get_world;
  let qs := queryset req w in
  let count := size qs in
  for_each (map_to_list qs).*1 (λ mail, send mail (Some (req_user req)));;
  messages_success "{count} mails have been sent." (Some count);;
  mret (Redirect (outbox (event_pk (req_event req)))).

Definition dispatch (req : Request) : M Response :=
  match kwargs_pk req with
  | Some pk =>
      w ← get_world;
      match event_queued_mails (req_event req) w !! pk with
      | None =>
          messages_error "This mail either does not exist or cannot be discarded because it was sent already.";;
          mret (Redirect (outbox (event_pk (req_event req))))
      | Some mail =>
          match sent mail with
          | Some _ => messages_error "This mail had been sent already."
          | None =>
              send pk (Some (req_user req));;
              messages_success "The mail has been sent." None
          end;;
          mret (Redirect (outbox (event_pk (req_event req))))
      end
  | None =>
      PermissionRequired_dispatch permission_required req
        (View_dispatch req (Some (render template_name))
           (Some (post req)) None)
  end.
End OutboxSend.

Module OutboxPurge.
Definition permission_required := "orga.purge_mails".
Definition template_name := "orga/mails/confirm.html".

Definition queryset (req : Request) (w : World) : gmap Z QueuedMail :=
  let qs := sent__isnull (event_queued_mails (req_event req) w) in
  match kwargs_pk req with
  | Some pk => filter (λ kv, kv.1 = pk) qs
  | None => qs
  end.

(** The object the permission is checked on. *)
Inductive PermissionObject :=
| a_mail (pk : Z) (mail : QueuedMail)
| an_event (ev : Event)
| no_object.

(** [get_permission_object]: [.first()] of a queryset is [None] when the
    queryset is empty. *)
Definition get_permission_object (req : Request) (w : World)
    : PermissionObject :=
  match kwargs_pk req with
  | Some pk =>
      match sent__isnull (event_queued_mails (req_event req) w) !! pk with
      | Some mail => a_mail pk mail
      | None => no_object
      end
  | None => an_event (req_event req)
  end.

Definition question (req : Request) (w : World) : string * nat :=
  ("Do you really want to purge {count} mails?", size (queryset req w)).

Definition post (req : Request) : M Response :=
  w ← get_world;
  let qs := queryset req w in
  let count := size qs in
  QuerySet_delete qs;;
  messages_success "{count} mails have been purged." (Some count);;
  mret (Redirect (outbox (event_pk (req_event req)))).

Definition dispatch (req : Request) : M Response :=
  match kwargs_pk req with
  | Some pk =>
      w ← get_world;
      match sent__isnull (event_queued_mails (req_event req) w) !! pk with
      | None =>
          messages_error "This mail either does not exist or cannot be discarded because it was sent already.";;
          mret (Redirect (outbox (event_pk (req_event req))))
      | Some mail =>
          match sent mail with
          | Some _ => messages_error "This mail had been sent already."
          | None =>
              log_action (MailRef (Some pk)) "pretalx.mail.delete"
                (req_user req) true;;
              QueuedMail_delete pk;;
              messages_success "The mail has been deleted." None
          end;;
          mret (Redirect (outbox (event_pk (req_event req))))
      end
  | None =>
      PermissionRequired_dispatch permission_required req
        (View_dispatch req (Some (render template_name))
           (Some (post req)) None)
  end.
End OutboxPurge.

Module MailDetail.
Definition template_name := "orga/mails/outbox_form.html".
Definition permission_required := "orga.view_mails".

(** A model instance that may not be saved yet: its key, if any, and its
    fields. *)
Definition Instance : Type := option Z * QueuedMail.

Definition get_object (req : Request) (w : World) : option Instance :=
  pk ← kwargs_pk req;
  mail ← event_queued_mails (req_event req) w !! pk;
  Some (Some pk, mail).

(** [self.object.event.orga_urls.outbox]; without an object the attribute
    access fails. *)
Definition get_success_url (object : option Instance) : option Url :=
  (λ o : Instance, outbox (event o.2)) <$> object.

Definition redirect (url : option Url) : Response :=
  match url with
  | Some u => Redirect u
  | None => ServerError "AttributeError"
  end.

(** [form.instance] when [form_valid] has run its first statement: the
    object the form was bound to (a new QueuedMail when there is none),
    with [event] set to the request's.  [sent] is that of the object. *)
Definition form_instance (req : Request) (form : MailDetailForm)
    (object : option Instance) : Instance :=
  let base := default (None, {| event := event_pk (req_event req);
                                to := None; to_users := [];
                                reply_to := None; cc := None; bcc := None;
                                subject := None; text_ := None;
                                sent := None |}) object in
  (base.1, with_event (event_pk (req_event req)) base.2).

(** The row that [form.save()] stores for the instance [row]: the content
    the form gives it, under the event and the [sent] of the instance. *)
Definition saved_row (form : MailDetailForm) (w : World) (row : QueuedMail)
    : QueuedMail :=
  with_sent (sent row) (with_event (event row) (md_save form w row)).

(** [form.save()]: updates the row of a saved instance, inserts a new
    instance; the result is the saved instance. *)
Definition form_save (form : MailDetailForm) (inst : Instance) : M Instance :=
  w ← get_world;
  let row := saved_row form w inst.2 in
  match inst.1 with
  | Some pk =>
      modify (λ w, record (Saved (MailRef (Some pk)))
                     (set_queued_mails (insert pk row) w));;
      mret (Some pk, row)
  | None =>
      pk ← QueuedMail_create row;
      mret (Some pk, row)
  end.

(** [form_valid] runs on an instance of the view whose [self.object] is
    [object] (set by [CreateOrUpdateView.post] from [get_object]).  The
    call [super().form_valid(form)] is the framework's
    [ModelFormMixin.form_valid]: it assigns [self.object = form.save()]
    and answers with a redirect to [get_success_url()]. *)
Definition form_valid (req : Request) (form : MailDetailForm)
    (object : option Instance) : M Response :=
  let instance := form_instance req form object in
  match sent instance.2 with
  | Some _ =>
      messages_error "The email has already been sent, you cannot edit it anymore.";;
      mret (redirect (get_success_url object))
  | None =>
      saved ← form_save form instance;
      let object : option Instance := Some saved in
      let result := redirect (get_success_url object) in
      (if md_has_changed form then
         let action := "pretalx.mail." +:+
                       (match object with
                        | Some _ => "update"
                        | None => "create"
                        end) in
         log_action (MailRef saved.1) action (req_user req) true
       else mret tt);;
      let action := default "save" (md_data_form form) in
      (if decide (action = "save") then
         messages_success "The email has been saved. When you send it, the updated text will be used." None
       else if decide (action = "send") then
         match saved.1 with
         | Some pk => send pk None
         | None => mret tt
         end;;
         messages_success "The email has been sent." None
       else mret tt);;
      mret result
  end.

Definition post (req : Request) (form : MailDetailForm) : M Response :=
  w ← get_world;
  let object := get_object req w in
  ProcessFormView_post template_name (md_is_valid form)
    (form_valid req form object).

(** The view names no permission object: the permission is checked on
    [get_object()]. *)
Definition dispatch (req : Request) (form : MailDetailForm) : M Response :=
  PermissionRequired_dispatch_object permission_required (get_object req)
    req
    (View_dispatch req (Some (render template_name))
       (Some (post req form)) (Some (post req form))).
End MailDetail.

Module MailCopy.
Definition permission_required := "orga.send_mails".

(** [get_object_or_404]: [None] is [Http404]. *)
Definition get_object (req : Request) (w : World) : option QueuedMail :=
  pk ← kwargs_pk req;
  event_queued_mails (req_event req) w !! pk.

Definition dispatch (req : Request) : M Response :=
  w ← get_world;
  match get_object req w with
  | None => mret Http404
  | Some mail =>
      new_mail ← copy_to_draft mail;
      messages_success "The mail has been copied, you can edit it now." None;;
      mret (Redirect (mail_edit new_mail))
  end.
End MailCopy.

Module ComposeMail.
Definition template_name := "orga/mails/send_form.html".
Definition permission_required := "orga.send_mails".

(** [get_form_kwargs] adds to the [initial] dict it gets from the
    framework; the result is the new [initial], or the exception of the
    query [filter(pk=...)]: [ValueError] when the parameter is not a
    number, [OverflowError] when the number is no key the database can be
    asked for. *)
Definition get_form_kwargs (req : Request) (initial : gmap string text)
    (w : World) : string + gmap string text :=
  let step1 :=
    match req_GET req !! "template" with
    | Some param =>
        match Py.int param with
        | None => inl "ValueError"
        | Some pk =>
            if decide (key_in_range pk) then
              match MailTemplate_objects req w !! pk with
              | Some template =>
                  inr (<["bcc" := tpl_bcc template]>
                       (<["reply_to" := tpl_reply_to template]>
                        (<["text" := tpl_text template]>
                         (<["subject" := tpl_subject template]> initial))))
              | None => inr initial
              end
            else inl "OverflowError"
        end
    | None => inr initial
    end in
  match step1 with
  | inl e => inl e
  | inr initial =>
      let initial :=
        match req_GET req !! "submission" with
        | Some param =>
            match List.find (λ s, bool_decide (code s = param))
                    (event_submissions (req_event req) w) with
            | Some submission =>
                <["submissions" := Some (code submission)]> initial
            | None => initial
            end
        | None => initial
        end in
      let initial :=
        match req_GET req !! "email" with
        | Some param => <["additional_recipients" := Some param]> initial
        | None => initial
        end in
      inr initial
  end.

Definition get_success_url (req : Request) : Url :=
  compose_mails (event_pk (req_event req)).

(** The users a recipient category names. *)
Definition recipient_users (req : Request) (recipient : string) (w : World)
    : list Z :=
  if decide (recipient = "reviewers") then
    users_with_teams__in_distinct
      (filter (λ t, is_reviewer t = true) (event_teams (req_event req) w)) w
  else if decide (recipient = "no_slides") then
    users_with_submissions__in
      (filter (λ s, resources s = [] ∧ state s = "confirmed")
         (event_submissions (req_event req) w)) w
  else
    users_with_submissions__in
      (filter (λ s, state s = recipient)
         (event_submissions (req_event req) w)) w.

(** The first part of [form_valid]: the users the criteria resolve to. *)
Definition criteria_users (req : Request) (form : WriteMailForm) (w : World)
    : gset Z :=
  let user_set : gset Z := ∅ in
  let user_set :=
    match cd_submissions form with
    | Some ((_ :: _) as submissions) =>
        user_set ∪ list_to_set
          (users_with_submissions__in
             (filter (λ s, code s ∈ submissions)
                (event_submissions (req_event req) w)) w)
    | _ => user_set
    end in
  let user_set :=
    match cd_tracks form with
    | Some ((_ :: _) as tracks) =>
        user_set ∪ list_to_set
          (users_with_submissions__in
             (filter (λ s, track_id s ∈ Some <$> tracks)
                (event_submissions (req_event req) w)) w)
    | _ => user_set
    end in
  let user_set :=
    match cd_submission_types form with
    | Some ((_ :: _) as submission_types) =>
        user_set ∪ list_to_set
          (users_with_submissions__in
             (filter (λ s, submission_type_id s ∈ submission_types)
                (event_submissions (req_event req) w)) w)
    | _ => user_set
    end in
  foldl (λ user_set recipient,
           user_set ∪ list_to_set (recipient_users req recipient w))
    user_set (cd_recipients form).

Definition additional_mails (form : WriteMailForm) : list string :=
  (λ m, Py.lower (Py.strip m)) <$>
    filter (λ m, Py.truthy (Py.strip m) = true)
      (Py.split_comma (default "" (cd_additional_recipients form))).

(** [form.cleaned_data.get('reply_to', self.request.event.email)] *)
Definition reply_to_or_default (req : Request) (form : WriteMailForm)
    : text :=
  default (Some (event_email (req_event req))) (cd_reply_to form).

(** The row of [QueuedMail.objects.create(event=..., to=email, ...)]. *)
Definition address_mail (req : Request) (form : WriteMailForm)
    (email : string) : QueuedMail :=
  {| event := event_pk (req_event req);
     to := Some email; to_users := [];
     reply_to := reply_to_or_default req form;
     cc := cd_cc form; bcc := cd_bcc form;
     subject := cd_subject form; text_ := cd_text form;
     sent := None |}.

(** The row of [QueuedMail.objects.create(event=..., ...)] without [to]. *)
Definition user_mail (req : Request) (form : WriteMailForm) : QueuedMail :=
  {| event := event_pk (req_event req);
     to := None; to_users := [];
     reply_to := reply_to_or_default req form;
     cc := cd_cc form; bcc := cd_bcc form;
     subject := cd_subject form; text_ := cd_text form;
     sent := None |}.

(** [for email in additional_mails: ...], threading [user_set]. *)
Fixpoint add_additional (req : Request) (form : WriteMailForm)
    (emails : list string) (user_set : gset Z) : M (gset Z) :=
  match emails with
  | [] => mret user_set
  | email :: emails' =>
      w ← get_world;
      user_set ←
        match first_user_by_email email w with
        | Some user => mret (user_set ∪ {[user_pk user]})
        | None =>
            QueuedMail_create (address_mail req form email);;
            mret user_set
        end;
      add_additional req form emails' user_set
  end.

(** [for user in user_set] visits the set in an order Python does not
    specify; [elements] is one such order. *)
Definition form_valid (req : Request) (form : WriteMailForm) : M Response :=
  w ← get_world;
  let user_set := criteria_users req form w in
  let additional_mails := additional_mails form in
  user_set ← add_additional req form additional_mails user_set;
  for_each (elements user_set)
    (λ user, mail ← QueuedMail_create (user_mail req form);
             to_users_add mail user);;
  messages_success
    "{count} emails have been saved to the outbox – you can make individual changes there or just send them all."
    (Some (size user_set + List.length additional_mails)%nat);;
  mret (Redirect (get_success_url req)).

(** [FormView]: both [get] and [post] build the form first, hence call
    [get_form_kwargs], whose [initial] starts empty. *)
Definition with_form (req : Request) (handler : M Response) : M Response :=
  w ← get_world;
  match get_form_kwargs req ∅ w with
  | inl e => mret (ServerError e)
  | inr _ => handler
  end.

Definition post (req : Request) (form : WriteMailForm) : M Response :=
  with_form req
    (ProcessFormView_post template_name (wm_is_valid form)
       (form_valid req form)).

Definition dispatch (req : Request) (form : WriteMailForm) : M Response :=
  PermissionRequired_dispatch permission_required req
    (View_dispatch req (Some (with_form req (render template_name)))
       (Some (post req form)) (Some (post req form))).
End ComposeMail.

Module TemplateList.
Definition template_name := "orga/mails/template_list.html".
Definition permission_required := "orga.view_mail_templates".

(** The [other] entry of [get_context_data]: the templates of the event
    whose key is not among [pks], the keys of the role templates; a key
    that is [None] or falsy (0) is dropped from [pks] first. *)
Definition other (fixed : FixedTemplates) (req : Request) (w : World)
    : gmap Z MailTemplate :=
  let pks := [accept_template fixed; ack_template fixed;
              reject_template fixed; update_template fixed] in
  let pk__in := filter (λ pk, pk ≠ 0) (omap id pks) in
  filter (λ kv, kv.1 ∉ pk__in) (event_mail_templates (req_event req) w).

Definition dispatch (req : Request) : M Response :=
  PermissionRequired_dispatch permission_required req
    (View_dispatch req (Some (render template_name)) None None).
End TemplateList.

Module TemplateDetail.
Definition template_name := "orga/mails/template_form.html".
Definition permission_required := "orga.view_mail_templates".

Definition Instance : Type := option Z * MailTemplate.

Definition get_object (req : Request) (w : World) : option Instance :=
  pk ← kwargs_pk req;
  template ← event_mail_templates (req_event req) w !! pk;
  Some (Some pk, template).

Definition get_success_url (req : Request) : Url :=
  mail_templates_url (event_pk (req_event req)).

Definition form_instance (req : Request) (form : MailTemplateForm)
    (object : option Instance) : Instance :=
  (object ≫= fst,
   {| tpl_event := event_pk (req_event req);
      tpl_subject := tf_subject form; tpl_text := tf_text form;
      tpl_reply_to := tf_reply_to form; tpl_bcc := tf_bcc form |}).

Definition form_save (inst : Instance) : M Instance :=
  λ w,
    let pk := default (fresh_pk (mail_templates w)) inst.1 in
    ((Some pk, inst.2),
     record (match inst.1 with
             | Some _ => Saved (TemplateRef (Some pk))
             | None => Created (TemplateRef (Some pk))
             end)
       (set_mail_templates (insert pk inst.2) w)).

Definition form_valid (req : Request) (form : MailTemplateForm)
    (object : option Instance) : M Response :=
  let instance := form_instance req form object in
  (if tf_has_changed form then
     let action := "pretalx.mail_template." +:+
                   (match object with
                    | Some _ => "update"
                    | None => "create"
                    end) in
     log_action (TemplateRef instance.1) action (req_user req) true
   else mret tt);;
  messages_success
    "The template has been saved - note that already pending emails that are based on this template will not be changed!"
    None;;
  form_save instance;;
  mret (Redirect (get_success_url req)).

Definition post (req : Request) (form : MailTemplateForm) : M Response :=
  w ← get_world;
  let object := get_object req w in
  ProcessFormView_post template_name (tf_is_valid form)
    (form_valid req form object).

Definition dispatch (req : Request) (form : MailTemplateForm)
    : M Response :=
  PermissionRequired_dispatch permission_required req
    (View_dispatch req (Some (render template_name))
       (Some (post req form)) (Some (post req form))).
End TemplateDetail.

Module TemplateDelete.
Definition permission_required := "orga.edit_mail_templates".

(** [get_object_or_404]: [None] is [Http404]. *)
Definition get_object (req : Request) (w : World)
    : option (Z * MailTemplate) :=
  pk ← kwargs_pk req;
  template ← event_mail_templates (req_event req) w !! pk;
  Some (pk, template).

(** The view has no [get] or [post]: the response of
    [super().dispatch(...)] is the framework's answer for a method
    without handler, and the code drops it.  A refused permission check
    ends the request. *)
Definition dispatch (req : Request) : M Response :=
  r ← PermissionRequired_dispatch permission_required req
        (View_dispatch req None None None);
  match r with
  | PermissionDenied => mret PermissionDenied
  | _ =>
      w ← get_world;
      match get_object req w with
      | None => mret Http404
      | Some (pk, template) =>
          log_action (TemplateRef (Some pk)) "pretalx.mail_template.delete"
            (req_user req) true;;
          MailTemplate_delete pk;;
          messages_success "The template has been deleted." None;;
          mret (Redirect (mail_templates_url (event_pk (req_event req))))
      end
  end.
End TemplateDelete.

(** ** The module as a whole: one route per view *)

Inductive Route :=
| outbox_list
| sent_mail
| outbox_send
| outbox_purge
| mail_detail (form : MailDetailForm)
| mail_copy
| compose_mail (form : WriteMailForm)
| template_list
| template_detail (form : MailTemplateForm)
| template_delete.

Definition handle (route : Route) (req : Request) : M Response :=
  match route with
  | outbox_list => OutboxList.dispatch req
  | sent_mail => SentMail.dispatch req
  | outbox_send => OutboxSend.dispatch req
  | outbox_purge => OutboxPurge.dispatch req
  | mail_detail form => MailDetail.dispatch req form
  | mail_copy => MailCopy.dispatch req
  | compose_mail form => ComposeMail.dispatch req form
  | template_list => TemplateList.dispatch req
  | template_detail form => TemplateDetail.dispatch req form
  | template_delete => TemplateDelete.dispatch req
  end.

(** ** Sample data

    An event with one user, one unsent and one sent mail; a second event
    with a mail and a template of its own. *)

Module Sample.
Definition conference : Event :=
  {| event_pk := 1; event_email := "orga@conf.org" |}.

Definition alice : User := {| user_pk := 7; user_email := "a@x.com" |}.

Definition draft : QueuedMail :=
  {| event := 1; to := Some "b@y.com"; to_users := [];
     reply_to := None; cc := None; bcc := None;
     subject := Some "Schedule"; text_ := Some "See you soon.";
     sent := None |}.

Definition delivered : QueuedMail :=
  {| event := 1; to := None; to_users := [7];
     reply_to := None; cc := None; bcc := None;
     subject := Some "Welcome"; text_ := Some "Your talk is accepted.";
     sent := Some 50 |}.

Definition elsewhere : QueuedMail :=
  {| event := 2; to := Some "c@z.org"; to_users := [];
     reply_to := None; cc := None; bcc := None;
     subject := Some "Other"; text_ := Some "Another event.";
     sent := None |}.

Definition foreign_template : MailTemplate :=
  {| tpl_event := 2; tpl_subject := Some "Reminder";
     tpl_text := Some "Do not forget."; tpl_reply_to := Some "team@z.org";
     tpl_bcc := None |}.

Definition world : World :=
  {| users := [alice]; submissions := []; teams := [];
     queued_mails := {[ 1 := draft; 2 := delivered; 3 := elsewhere ]};
     mail_templates := {[ 5 := foreign_template ]};
     journal := []; flash := []; now := 100 |}.

(** A world without mails, for the compose examples. *)
Definition empty_outbox : World :=
  {| users := [alice]; submissions := []; teams := [];
     queued_mails := ∅; mail_templates := ∅;
     journal := []; flash := []; now := 100 |}.

Definition organizer : gset string :=
  {[ "orga.view_mails"; "orga.send_mails"; "orga.purge_mails";
     "orga.edit_mails"; "orga.view_mail_templates";
     "orga.edit_mail_templates" ]}.

Definition request (m : Method) (pk : option Z) : Request :=
  {| method := m; req_event := conference; req_user := 9;
     perms := organizer; req_GET := ∅; kwargs_pk := pk |}.

Definition prefill_request : Request :=
  {| method := GET; req_event := conference; req_user := 9;
     perms := organizer; req_GET := {[ "template" := "5" ]};
     kwargs_pk := None |}.

(** The same request to the compose page of the second event. *)
Definition other_conference : Event :=
  {| event_pk := 2; event_email := "team@z.org" |}.

Definition other_request (m : Method) (pk : option Z) : Request :=
  {| method := m; req_event := other_conference; req_user := 9;
     perms := organizer; req_GET := ∅; kwargs_pk := pk |}.

Definition other_prefill_request : Request :=
  {| method := GET; req_event := other_conference; req_user := 9;
     perms := organizer; req_GET := {[ "template" := "5" ]};
     kwargs_pk := None |}.

(** The compose submission of the specification's example. *)
Definition compose_form : WriteMailForm :=
  {| wm_is_valid := true;
     cd_submissions := None; cd_tracks := None;
     cd_submission_types := None; cd_recipients := [];
     cd_additional_recipients := Some "a@x.com, A@X.com, b@y.com";
     cd_reply_to := None; cd_cc := None; cd_bcc := None;
     cd_subject := Some "Hello"; cd_text := Some "News." |}.

(** A mail-detail submission whose form lowercases [to] and hands it to
    the user of that address, when there is one. *)
Definition save_lowercase (w : World) (row : QueuedMail) : QueuedMail :=
  let address := Py.lower "D@W.net" in
  match first_user_by_email address w with
  | Some user =>
      {| event := event row; to := None; to_users := [user_pk user];
         reply_to := None; cc := None; bcc := None;
         subject := Some "Draft"; text_ := Some "To be written.";
         sent := sent row |}
  | None =>
      {| event := event row; to := Some address; to_users := [];
         reply_to := None; cc := None; bcc := None;
         subject := Some "Draft"; text_ := Some "To be written.";
         sent := sent row |}
  end.

(** The same submission with the reply-to field left blank. *)
Definition blank_reply_to_form : WriteMailForm :=
  {| wm_is_valid := true;
     cd_submissions := None; cd_tracks := None;
     cd_submission_types := None; cd_recipients := [];
     cd_additional_recipients := Some "a@x.com, A@X.com, b@y.com";
     cd_reply_to := Some (Some ""); cd_cc := None; cd_bcc := None;
     cd_subject := Some "Hello"; cd_text := Some "News." |}.

Definition detail_form : MailDetailForm :=
  {| md_is_valid := true; md_has_changed := true;
     md_data_form := None; md_save := save_lowercase |}.

End Sample.

(** * Properties *)

(** ** Vocabulary of the statements *)

(** [w'] is [w] with one more flash message of level [lv], and nothing else
    differs: no table, no journal entry. *)
Definition only_reports (lv : Level) (w w' : World) : Prop :=
  ∃ m, level m = lv ∧ w' = add_message m w.

(** The rows of queued mails that [w'] has under keys that [w] does not
    have. *)
Definition created (w w' : World) : list QueuedMail :=
  (map_to_list (queued_mails w' ∖ queued_mails w)).*2.

(** The entries the handler appended to the journal. *)
Definition appended {A} (before after : list A) : list A :=
  drop (List.length before) after.

(** The requests that submit the mail-detail form: a permitted POST or PUT
    with a form that validates. *)
Definition submits (req : Request) (form : MailDetailForm) : Prop :=
  (method req = POST ∨ method req = PUT)
  ∧ MailDetail.permission_required ∈ perms req
  ∧ md_is_valid form = true.

#[export] Instance submits_dec req form : Decision (submits req form).
Proof. unfold submits. apply _. Defined.

Definition is_LogAction (e : Effect) : bool :=
  match e with LogAction _ _ _ _ => true | _ => false end.

Definition is_Redirect (r : Response) : bool :=
  match r with Redirect _ => true | _ => false end.

Ltac run :=
  unfold mbind, M_bind, mret, M_ret, get_world, modify,
    messages_error, messages_success, log_action in *;
  simpl in *.

Lemma appended_app {A} (l k : list A) : appended l (l ++ k) = k.
Proof. unfold appended. by rewrite drop_app_length. Qed.

(** ** Single-record send *)

Lemma event_queued_mails_lookup ev w pk :
  event_queued_mails ev w !! pk =
  match queued_mails w !! pk with
  | Some m => if decide (event m = event_pk ev) then Some m else None
  | None => None
  end.
Proof.
  unfold event_queued_mails.
  destruct (queued_mails w !! pk) as [m|] eqn:E.
  - case_decide.
    + by apply map_lookup_filter_Some.
    + apply map_lookup_filter_None. right. intros m' ?. simplify_eq. done.
  - apply map_lookup_filter_None. by left.
Qed.

Lemma sent__isnull_lookup (qs : gmap Z QueuedMail) pk :
  sent__isnull qs !! pk =
  match qs !! pk with
  | Some m => if decide (sent m = None) then Some m else None
  | None => None
  end.
Proof.
  unfold sent__isnull.
  destruct (qs !! pk) as [m|] eqn:E.
  - case_decide.
    + by apply map_lookup_filter_Some.
    + apply map_lookup_filter_None. right. intros m' ?. simplify_eq. done.
  - apply map_lookup_filter_None. by left.
Qed.

(** C7.  A single-record send request (the URL names [pk]): when the event
    has no such mail, or the mail is already sent, the request redirects to
    the outbox and the world changes by one error message only; otherwise
    the journal grows by exactly one call [send(requestor=request.user)] on
    that mail, a success message is added, and nothing else is touched
    than the row of that mail. *)
Theorem single_send_outcomes (req : Request) (pk : Z) (w : World) :
  kwargs_pk req = Some pk →
  let r := OutboxSend.dispatch req w in
  response_of r = Redirect (outbox (event_pk (req_event req))) ∧
  match event_queued_mails (req_event req) w !! pk with
  | None => only_reports ERROR w (world_of r)
  | Some mail =>
      match sent mail with
      | Some _ => only_reports ERROR w (world_of r)
      | None =>
          appended (journal w) (journal (world_of r))
            = [Send pk (Some (req_user req))]
          ∧ (∃ m, level m = SUCCESS ∧ flash (world_of r) = flash w ++ [m])
          ∧ (∀ pk', pk' ≠ pk →
               queued_mails (world_of r) !! pk' = queued_mails w !! pk')
          ∧ mail_templates (world_of r) = mail_templates w
      end
  end.
Proof.
  intros Hpk r. subst r. unfold OutboxSend.dispatch. rewrite Hpk. run.
  destruct (event_queued_mails (req_event req) w !! pk) as [mail|] eqn:E;
    simpl.
  - destruct (sent mail) eqn:Es; simpl.
    + split; [done|]. eexists; split; [|reflexivity]; done.
    + split; [done|]. unfold send; run. split_and!.
      * apply appended_app.
      * eexists; split; [|reflexivity]; done.
      * intros pk' Hne. by rewrite lookup_alter_ne.
      * done.
  - split; [done|]. eexists; split; [|reflexivity]; done.
Qed.

(** ** Single-record purge *)

(** C8.  A single-record purge request (the URL names [pk]).  When [pk] is
    an unsent mail of the event, the journal grows by the audit-log entry
    followed by the deletion, in this order, the row is gone, no other row
    is, and success is reported.  When [pk] is a mail that is already sent,
    the world changes by one error message only: nothing is deleted, and
    the other unsent mails of the outbox are still there. *)
Theorem single_purge_outcomes (req : Request) (pk : Z) (mail : QueuedMail)
    (w : World) :
  kwargs_pk req = Some pk →
  queued_mails w !! pk = Some mail →
  let r := OutboxPurge.dispatch req w in
  response_of r = Redirect (outbox (event_pk (req_event req))) ∧
  (event mail = event_pk (req_event req) → sent mail = None →
     appended (journal w) (journal (world_of r))
       = [LogAction "pretalx.mail.delete" (MailRef (Some pk))
            (req_user req) true;
          Deleted (MailRef (Some pk))]
     ∧ queued_mails (world_of r) = delete pk (queued_mails w)
     ∧ (∃ m, level m = SUCCESS ∧ flash (world_of r) = flash w ++ [m])) ∧
  (sent mail ≠ None →
     only_reports ERROR w (world_of r)
     ∧ queued_mails (world_of r) = queued_mails w).
Proof.
  intros Hpk Hmail r. subst r. unfold OutboxPurge.dispatch. rewrite Hpk. run.
  rewrite sent__isnull_lookup, event_queued_mails_lookup, Hmail.
  destruct (decide (event mail = event_pk (req_event req))) as [Hev|Hev];
    [destruct (decide (sent mail = None)) as [Hs|Hs]|]; simpl.
  - rewrite Hs. simpl. split_and!; [done| |congruence].
    intros _ _. unfold QueuedMail_delete; run. split_and!.
    + change (journal w ++ [?a] ++ [?b]) with (journal w ++ [a; b]).
      rewrite <- (app_assoc (journal w) [_] [_]). apply appended_app.
    + done.
    + eexists; split; [|reflexivity]; done.
  - split_and!; [done|congruence|].
    intros _. split; [|done]. eexists; split; [|reflexivity]; done.
  - split_and!; [done|congruence|].
    intros _. split; [|done]. eexists; split; [|reflexivity]; done.
Qed.

(** ** Mails that are already sent *)

Lemma fresh_pk_fresh {A} (table : gmap Z A) : table !! fresh_pk table = None.
Proof.
  destruct (table !! fresh_pk table) as [x|] eqn:E; [exfalso|done].
  apply elem_of_map_to_list in E. unfold fresh_pk in E.
  assert (Hmax : ∀ (l : list (Z * A)) k y,
             (k, y) ∈ l → k ≤ foldr Z.max 0 l.*1).
  { induction l as [|[k' y'] l IH]; intros k y Hin.
    - by apply elem_of_nil in Hin.
    - rewrite fmap_cons. cbn [foldr fst].
      apply elem_of_cons in Hin as [Heq|Hin].
      + injection Heq as -> ->. apply Z.le_max_l.
      + specialize (IH _ _ Hin). etrans; [exact IH|apply Z.le_max_r]. }
  specialize (Hmax _ _ _ E). lia.
Qed.

(** A handler run from a world that satisfies [P] ends with a result and a
    world that satisfy [Q]. *)
Definition hoare {A} (P : World → Prop) (c : M A) (Q : A → World → Prop)
    : Prop :=
  ∀ w, P w → Q (c w).1 (c w).2.

Lemma hoare_ret {A} (P : World → Prop) (Q : A → World → Prop) (a : A) :
  (∀ w, P w → Q a w) → hoare P (mret a) Q.
Proof. intros H w Hw. by apply H. Qed.

Lemma hoare_bind {A B} (P : World → Prop) (Q : A → World → Prop)
    (R : B → World → Prop) (c : M A) (k : A → M B) :
  hoare P c Q → (∀ a, hoare (Q a) (k a) R) → hoare P (c ≫= k) R.
Proof.
  intros Hc Hk w Hw. unfold mbind, M_bind.
  specialize (Hc w Hw). destruct (c w) as [a w1]. by apply Hk.
Qed.

Lemma hoare_assume {A} (φ : Prop) (P : World → Prop)
    (Q : A → World → Prop) (c : M A) :
  (φ → hoare P c Q) → hoare (λ w, P w ∧ φ) c Q.
Proof. intros H w [Hw Hφ]. by apply H. Qed.

Lemma hoare_read {B} (P : World → Prop) (R : B → World → Prop)
    (k : World → M B) :
  (∀ w0, P w0 → hoare P (k w0) R) → hoare P (get_world ≫= k) R.
Proof. intros Hk w Hw. exact (Hk w Hw w Hw). Qed.

Lemma hoare_modify (P : World → Prop) (Q : unit → World → Prop)
    (f : World → World) :
  (∀ w, P w → Q tt (f w)) → hoare P (modify f) Q.
Proof. intros H w Hw. by apply H. Qed.

Lemma for_each_cons {A} (x : A) (l : list A) (body : A → M unit) (w : World) :
  for_each (x :: l) body w = for_each l body (body x w).2.
Proof. simpl. unfold mbind, M_bind. by destruct (body x w). Qed.

Lemma hoare_for_each {A} (I : World → Prop) (l : list A) (body : A → M unit) :
  (∀ x, x ∈ l → hoare I (body x) (λ _, I)) →
  hoare I (for_each l body) (λ _, I).
Proof.
  induction l as [|x l IH]; intros Hbody; simpl.
  - by apply hoare_ret.
  - eapply hoare_bind; [apply Hbody; by left|].
    intros []. apply IH. intros y Hy. apply Hbody. by right.
Qed.

Section sent_mail.
(** One mail of the table that is already sent. *)
Variables (pk : Z) (mail : QueuedMail).
Hypothesis mail_sent : sent mail ≠ None.

Definition still_there (w : World) : Prop :=
  queued_mails w !! pk = Some mail.

Lemma fresh_pk_other w : still_there w → fresh_pk (queued_mails w) ≠ pk.
Proof.
  intros Hw Heq. pose proof (fresh_pk_fresh (queued_mails w)) as Hf.
  rewrite Heq in Hf. unfold still_there in Hw. congruence.
Qed.


Lemma create_still_there row :
  hoare still_there (QueuedMail_create row)
    (λ pk' w, still_there w ∧ pk' ≠ pk).
Proof.
  intros w Hw. pose proof (fresh_pk_other w Hw).
  unfold still_there, QueuedMail_create. simpl.
  by rewrite lookup_insert_ne.
Qed.

Lemma to_users_add_still_there pk' user :
  pk' ≠ pk → hoare still_there (to_users_add pk' user) (λ _, still_there).
Proof.
  intros Hne w Hw. unfold still_there, to_users_add in *. simpl.
  by rewrite lookup_alter_ne.
Qed.

Lemma send_still_there pk' requestor :
  pk' ≠ pk → hoare still_there (send pk' requestor) (λ _, still_there).
Proof.
  intros Hne w Hw. unfold still_there, send in *. simpl.
  by rewrite lookup_alter_ne.
Qed.

Lemma delete_still_there pk' :
  pk' ≠ pk → hoare still_there (QueuedMail_delete pk') (λ _, still_there).
Proof.
  intros Hne w Hw. unfold still_there, QueuedMail_delete in *. simpl.
  by rewrite lookup_delete_ne.
Qed.

Lemma log_action_still_there obj action person orga :
  hoare still_there (log_action obj action person orga) (λ _, still_there).
Proof.
  unfold log_action.
  destruct (ref_pk obj); [by apply hoare_modify|by apply hoare_ret].
Qed.

Lemma messages_success_still_there text n :
  hoare still_there (messages_success text n) (λ _, still_there).
Proof. by apply hoare_modify. Qed.

Lemma messages_error_still_there text :
  hoare still_there (messages_error text) (λ _, still_there).
Proof. by apply hoare_modify. Qed.


Lemma View_dispatch_still_there req get post put :
  (∀ c, get = Some c → hoare still_there c (λ _, still_there)) →
  (∀ c, post = Some c → hoare still_there c (λ _, still_there)) →
  (∀ c, put = Some c → hoare still_there c (λ _, still_there)) →
  hoare still_there (View_dispatch req get post put) (λ _, still_there).
Proof.
  intros Hget Hpost Hput. unfold View_dispatch.
  destruct (method req), get, post, put; simpl;
    first [by apply hoare_ret | by apply Hget | by apply Hpost
          | by apply Hput].
Qed.

Lemma PermissionRequired_still_there perm req c :
  hoare still_there c (λ _, still_there) →
  hoare still_there (PermissionRequired_dispatch perm req c)
    (λ _, still_there).
Proof.
  intros Hc. unfold PermissionRequired_dispatch.
  case_decide; [done|by apply hoare_ret].
Qed.

Ltac still_step :=
  lazymatch goal with
  | |- hoare _ (mret _) _ =>
      first [by apply hoare_ret
            | by apply (hoare_ret still_there (λ _, still_there))]
  | |- hoare _ (render _) _ => by apply hoare_ret
  | |- hoare _ (messages_error _) _ => apply messages_error_still_there
  | |- hoare _ (messages_success _ _) _ =>
      apply messages_success_still_there
  | |- hoare _ (log_action _ _ _ _) _ => apply log_action_still_there
  | |- hoare _ (send _ _) _ => apply send_still_there
  | |- hoare _ (QueuedMail_delete _) _ => apply delete_still_there
  | |- hoare _ (to_users_add _ _) _ => apply to_users_add_still_there
  | |- hoare _ (QueuedMail_create _) _ => apply create_still_there
  | |- hoare _ (get_world ≫= _) _ => apply hoare_read; intros ? ?
  | |- hoare _ (_ ≫= _) _ => eapply hoare_bind; [|intros ?; simpl]
  | |- hoare _ (PermissionRequired_dispatch _ _ _) _ =>
      apply PermissionRequired_still_there
  end.



Lemma MailDetail_form_save_still_there form (inst : MailDetail.Instance) :
  (∀ pk', inst.1 = Some pk' → pk' ≠ pk) →
  hoare still_there (MailDetail.form_save form inst)
    (λ saved w, still_there w ∧ ∀ pk', saved.1 = Some pk' → pk' ≠ pk).
Proof.
  intros Hinst. unfold MailDetail.form_save.
  apply hoare_read. intros w0 _.
  destruct inst as [[pk'|] row]; simpl.
  - intros w Hw. split; [|by intros ? [= <-]; apply Hinst].
    unfold still_there in *. simpl.
    rewrite lookup_insert_ne; [done|]. by apply Hinst.
  - eapply hoare_bind; [apply create_still_there|].
    intros pk'. apply hoare_ret. intros w [Hw Hne]. split; [done|].
    by intros ? [= <-].
Qed.

Lemma MailDetail_form_valid_still_there req form object :
  (∀ pk' m', object = Some (Some pk', m') → sent m' = None → pk' ≠ pk) →
  hoare still_there (MailDetail.form_valid req form object)
    (λ _, still_there).
Proof.
  intros Hobj. unfold MailDetail.form_valid.
  destruct (sent (MailDetail.form_instance req form object).2) eqn:Es.
  - repeat still_step.
  - eapply hoare_bind.
    { apply MailDetail_form_save_still_there.
      intros pk' Hpk'. destruct object as [[opk m']|]; [|done].
      simpl in *. subst opk. by eapply Hobj. }
    intros saved. simpl. apply hoare_assume. intros Hsaved.
    destruct (md_has_changed form); repeat case_decide;
      destruct saved as [[spk|] srow]; simpl; repeat still_step;
      try by apply Hsaved.
Qed.


Lemma MailCopy_still_there req :
  hoare still_there (MailCopy.dispatch req) (λ _, still_there).
Proof.
  unfold MailCopy.dispatch. still_step.
  destruct (MailCopy.get_object req w0); [|still_step].
  unfold copy_to_draft. still_step; [still_step|].
  apply hoare_assume. intros _. repeat still_step.
Qed.

Lemma add_additional_still_there req form emails user_set :
  hoare still_there (ComposeMail.add_additional req form emails user_set)
    (λ _, still_there).
Proof.
  revert user_set. induction emails as [|email emails IH]; intros user_set;
    simpl.
  - still_step.
  - still_step. still_step; [|apply IH].
    destruct (first_user_by_email email w0); [still_step|].
    still_step; [still_step|]. apply hoare_assume. intros _. still_step.
Qed.

Lemma ComposeMail_still_there req form :
  hoare still_there (ComposeMail.dispatch req form) (λ _, still_there).
Proof.
  unfold ComposeMail.dispatch. still_step.
  assert (∀ c, hoare still_there c (λ _, still_there) →
               hoare still_there (ComposeMail.with_form req c)
                 (λ _, still_there)) as Hform.
  { intros c Hc. unfold ComposeMail.with_form. still_step.
    destruct (ComposeMail.get_form_kwargs req ∅ w0); [still_step|done]. }
  assert (hoare still_there (ComposeMail.post req form)
            (λ _, still_there)) as Hpost.
  { apply Hform. unfold ProcessFormView_post.
    destruct (wm_is_valid form); [|still_step].
    unfold ComposeMail.form_valid. still_step.
    still_step; [apply add_additional_still_there|].
    still_step.
    - apply hoare_for_each. intros user _.
      still_step; [still_step|]. apply hoare_assume. intros Hne.
      by still_step.
    - repeat still_step. }
  apply View_dispatch_still_there; intros c [= <-];
    [apply Hform; still_step|done|done].
Qed.

Lemma TemplateList_still_there req :
  hoare still_there (TemplateList.dispatch req) (λ _, still_there).
Proof.
  unfold TemplateList.dispatch. still_step.
  apply View_dispatch_still_there; intros c [= <-]. still_step.
Qed.

Lemma OutboxList_still_there req :
  hoare still_there (OutboxList.dispatch req) (λ _, still_there).
Proof.
  unfold OutboxList.dispatch. still_step.
  apply View_dispatch_still_there; intros c [= <-]. still_step.
Qed.

Lemma SentMail_still_there req :
  hoare still_there (SentMail.dispatch req) (λ _, still_there).
Proof.
  unfold SentMail.dispatch. still_step.
  apply View_dispatch_still_there; intros c [= <-]. still_step.
Qed.

Lemma TemplateDetail_still_there req form :
  hoare still_there (TemplateDetail.dispatch req form) (λ _, still_there).
Proof.
  unfold TemplateDetail.dispatch. still_step.
  assert (hoare still_there (TemplateDetail.post req form)
            (λ _, still_there)) as Hpost.
  { unfold TemplateDetail.post, ProcessFormView_post. still_step.
    destruct (tf_is_valid form); [|still_step].
    unfold TemplateDetail.form_valid.
    destruct (tf_has_changed form); repeat still_step;
      by intros w Hw. }
  apply View_dispatch_still_there; intros c [= <-];
    [still_step|done|done].
Qed.

Lemma TemplateDelete_still_there req :
  hoare still_there (TemplateDelete.dispatch req) (λ _, still_there).
Proof.
  unfold TemplateDelete.dispatch. still_step.
  { still_step. apply View_dispatch_still_there; by intros c [=]. }
  destruct a; repeat still_step;
    destruct (TemplateDelete.get_object req w0) as [[k t]|];
    repeat still_step; by apply hoare_modify.
Qed.

End sent_mail.



(** ** Bulk purge *)

Lemma for_each_delete (keys : list Z) (w : World) :
  let w' := (for_each keys QueuedMail_delete w).2 in
  (∀ k, queued_mails w' !! k =
        if decide (k ∈ keys) then None else queued_mails w !! k)
  ∧ flash w' = flash w
  ∧ mail_templates w' = mail_templates w
  ∧ journal w' = journal w ++ ((λ k, Deleted (MailRef (Some k))) <$> keys).
Proof.
  revert w. induction keys as [|key keys IH]; intros w; simpl.
  - split_and!; try done. by rewrite app_nil_r.
  - unfold mbind, M_bind.
    change (QueuedMail_delete key w)
      with (tt, record (Deleted (MailRef (Some key)))
                  (set_queued_mails (delete key) w)).
    cbv beta iota.
    destruct (IH (record (Deleted (MailRef (Some key)))
                    (set_queued_mails (delete key) w)))
      as (Hl & Hf & Ht & Hj).
    split_and!.
    + intros k. rewrite Hl. simpl.
      destruct (decide (k = key)) as [->|Hne].
      * rewrite lookup_delete_eq.
        rewrite (decide_True (P := key ∈ key :: keys)) by left.
        by case_decide.
      * rewrite lookup_delete_ne by done.
        destruct (decide (k ∈ keys)) as [Hin|Hin].
        -- by rewrite decide_True by (by right).
        -- rewrite decide_False; [done|].
           intros [?|?]%elem_of_cons; done.
    + by rewrite Hf.
    + by rewrite Ht.
    + rewrite Hj. simpl. by rewrite <- app_assoc.
Qed.

Lemma QuerySet_delete_spec (qs : gmap Z QueuedMail) (w : World) :
  let w' := (QuerySet_delete qs w).2 in
  queued_mails w' = queued_mails w ∖ qs
  ∧ flash w' = flash w
  ∧ mail_templates w' = mail_templates w.
Proof.
  unfold QuerySet_delete.
  destruct (for_each_delete (map_to_list qs).*1 w) as (Hl & Hf & Ht & _).
  split_and!; [|done|done].
  apply map_eq. intros k. rewrite Hl, lookup_difference.
  destruct (qs !! k) as [m|] eqn:E.
  - rewrite decide_True; [done|].
    apply list_elem_of_fmap. exists (k, m). split; [done|].
    by apply elem_of_map_to_list.
  - rewrite decide_False; [done|].
    intros [[k' m] [-> Hin]]%list_elem_of_fmap.
    apply elem_of_map_to_list in Hin. simpl in *. congruence.
Qed.

Lemma unsent_of_event_lookup ev w k :
  sent__isnull (event_queued_mails ev w) !! k =
  match queued_mails w !! k with
  | Some m => if decide (event m = event_pk ev ∧ sent m = None)
              then Some m else None
  | None => None
  end.
Proof.
  rewrite sent__isnull_lookup, event_queued_mails_lookup.
  destruct (queued_mails w !! k) as [m|]; [|done].
  destruct (decide (event m = event_pk ev)) as [He|He]; simpl.
  - destruct (decide (sent m = None)) as [Hs|Hs].
    + by rewrite decide_True.
    + rewrite decide_False; [done|]. by intros [_ ?].
  - rewrite decide_False; [done|]. by intros [? _].
Qed.

(** C9.  A permitted bulk purge (POST without [pk]) removes the rows of the
    event whose [sent] is null and no other row: every other row, in
    particular every sent one, is as before.  The count in the success
    message is the number of rows the table lost. *)
Theorem bulk_purge_removes_unsent (req : Request) (w : World) :
  method req = POST →
  kwargs_pk req = None →
  "orga.purge_mails" ∈ perms req →
  let r := OutboxPurge.dispatch req w in
  response_of r = Redirect (outbox (event_pk (req_event req)))
  ∧ (∀ k, queued_mails (world_of r) !! k =
          match queued_mails w !! k with
          | Some m =>
              if decide (event m = event_pk (req_event req) ∧ sent m = None)
              then None else Some m
          | None => None
          end)
  ∧ ∃ n : nat,
      flash (world_of r) =
        flash w ++ [{| level := SUCCESS;
                       msg := "{count} mails have been purged.";
                       count := Some n |}]
      ∧ size (queued_mails w) = (size (queued_mails (world_of r)) + n)%nat.
Proof.
  intros Hmethod Hpk Hperm r. subst r.
  unfold OutboxPurge.dispatch, PermissionRequired_dispatch, View_dispatch,
    OutboxPurge.post, OutboxPurge.queryset.
  rewrite Hpk, Hmethod. rewrite decide_True by done. run.
  set (qs := sent__isnull (event_queued_mails (req_event req) w)).
  destruct (QuerySet_delete_spec qs w) as (Hm & Hf & _).
  destruct (QuerySet_delete qs w) as [[] w'] eqn:E. simpl in *.
  assert (qs ⊆ queued_mails w) as Hsub.
  { unfold qs, sent__isnull, event_queued_mails.
    etrans; apply map_filter_subseteq. }
  split_and!; [done| |].
  - intros k. rewrite Hm, lookup_difference. unfold qs.
    rewrite unsent_of_event_lookup.
    destruct (queued_mails w !! k); [|done]. by case_decide.
  - exists (size qs). rewrite Hf. split; [done|].
    rewrite Hm. rewrite <- (map_difference_union qs (queued_mails w)) at 1
      by done.
    rewrite map_size_disj_union; [lia|].
    by apply map_disjoint_difference_r1.
Qed.

(** ** Compose: prefill from a template *)

Lemma event_mail_templates_lookup ev w pk :
  event_mail_templates ev w !! pk =
  match mail_templates w !! pk with
  | Some t => if decide (tpl_event t = event_pk ev) then Some t else None
  | None => None
  end.
Proof.
  unfold event_mail_templates.
  destruct (mail_templates w !! pk) as [t|] eqn:E.
  - case_decide.
    + by apply map_lookup_filter_Some.
    + apply map_lookup_filter_None. right. intros t' ?. simplify_eq. done.
  - apply map_lookup_filter_None. by left.
Qed.

(** The keys of the form's [initial] that a template is copied to, with
    the values they get. *)
Definition template_fields (template : MailTemplate)
    : list (string * option string) :=
  [("subject", tpl_subject template); ("text", tpl_text template);
   ("reply_to", tpl_reply_to template); ("bcc", tpl_bcc template)].

(** C10, as the code has it.  When the [template] query parameter is the
    key of a mail template, the compose form's initial values carry that
    template's subject, text, reply-to and bcc if the template is one of
    the request's event; for a template of another event nothing is
    copied, and the four entries are what they were. *)
Theorem template_prefill_is_event_scoped (req : Request)
    (initial : gmap string (option string)) (w : World)
    (param : string) (pk : Z) (template : MailTemplate) :
  req_GET req !! "template" = Some param →
  Py.int param = Some pk →
  key_in_range pk →
  mail_templates w !! pk = Some template →
  ∃ initial',
    ComposeMail.get_form_kwargs req initial w = inr initial'
    ∧ ∀ key value, (key, value) ∈ template_fields template →
        initial' !! key =
        if decide (tpl_event template = event_pk (req_event req))
        then Some value else initial !! key.
Proof.
  intros Hparam Hint Hrange Htemplate.
  unfold ComposeMail.get_form_kwargs, MailTemplate_objects.
  rewrite Hparam, Hint, decide_True by done.
  rewrite event_mail_templates_lookup, Htemplate.
  destruct (decide (tpl_event template = event_pk (req_event req)));
    (eexists; split; [reflexivity|]); intros key value Hin;
    unfold template_fields in Hin;
    repeat (apply elem_of_cons in Hin as [[= -> ->]|Hin];
            [destruct (req_GET req !! "submission") as [c|];
               [destruct (List.find _ _)|];
             destruct (req_GET req !! "email"); by simplify_map_eq|]);
    by apply elem_of_nil in Hin.
Qed.

(** C10, as stated, fails: the key of a template of another event copies
    nothing into the initial values. *)
Lemma foreign_template_is_not_copied :
  req_GET Sample.prefill_request !! "template" = Some "5"
  ∧ mail_templates Sample.world !! 5 = Some Sample.foreign_template
  ∧ tpl_subject Sample.foreign_template = Some "Reminder"
  ∧ ∃ initial',
      ComposeMail.get_form_kwargs Sample.prefill_request ∅ Sample.world
        = inr initial'
      ∧ initial' !! "subject" = None.
Proof.
  split; [vm_compute; reflexivity|]. split; [vm_compute; reflexivity|].
  split; [reflexivity|]. eexists. split; [vm_compute; reflexivity|].
  vm_compute. reflexivity.
Qed.

(** ** Compose: the mails that are queued *)

(** [table] is [base] with the rows [rows] inserted under new keys. *)
Definition grows (base : gmap Z QueuedMail) (rows : list QueuedMail)
    (table : gmap Z QueuedMail) : Prop :=
  base ⊆ table ∧ (map_to_list (table ∖ base)).*2 ≡ₚ rows.

Lemma grows_refl base : grows base [] base.
Proof.
  split; [done|]. by rewrite map_difference_diag, map_to_list_empty.
Qed.

Lemma grows_insert base rows table row :
  grows base rows table →
  grows base (rows ++ [row]) (<[fresh_pk table := row]> table).
Proof.
  intros [Hsub Hrows]. pose proof (fresh_pk_fresh table) as Hfresh.
  assert (base !! fresh_pk table = None) as Hbase.
  { destruct (base !! fresh_pk table) as [x|] eqn:E; [|done].
    eapply lookup_weaken in E; [|exact Hsub]. congruence. }
  split.
  - etrans; [exact Hsub|]. by apply insert_subseteq.
  - rewrite <- insert_difference' by done.
    rewrite map_to_list_insert.
    + rewrite fmap_cons. simpl. rewrite Hrows.
      by rewrite Permutation_app_comm.
    + rewrite lookup_difference, Hbase. done.
Qed.

(** The per-user row once its recipient is attached. *)
Definition user_mail_to (req : Request) (form : WriteMailForm) (user : Z)
    : QueuedMail :=
  with_to_users (λ _, [user]) (ComposeMail.user_mail req form).

(** The users that the additional addresses resolve to, and the addresses
    that resolve to no user, in a world [w]. *)
Definition matched_users (w : World) (emails : list string) : list Z :=
  user_pk <$> omap (λ email, first_user_by_email email w) emails.

Definition unmatched (w : World) (emails : list string) : list string :=
  filter (λ email, first_user_by_email email w = None) emails.

Lemma add_additional_cons req form email emails user_set w :
  ComposeMail.add_additional req form (email :: emails) user_set w =
  match first_user_by_email email w with
  | Some user =>
      ComposeMail.add_additional req form emails
        (user_set ∪ {[user_pk user]}) w
  | None =>
      ComposeMail.add_additional req form emails user_set
        (QueuedMail_create (ComposeMail.address_mail req form email) w).2
  end.
Proof.
  cbn [ComposeMail.add_additional]. unfold mbind, M_bind, get_world.
  by destruct (first_user_by_email email w).
Qed.

Lemma add_additional_spec req form emails :
  ∀ user_set w base rows,
    grows base rows (queued_mails w) →
    let r := ComposeMail.add_additional req form emails user_set w in
    r.1 = user_set ∪ list_to_set (matched_users w emails)
    ∧ grows base
        (rows ++ (ComposeMail.address_mail req form <$> unmatched w emails))
        (queued_mails r.2)
    ∧ users r.2 = users w
    ∧ flash r.2 = flash w
    ∧ mail_templates r.2 = mail_templates w.
Proof.
  induction emails as [|email emails IH]; intros user_set w base rows Hg.
  - simpl. unfold matched_users, unmatched. simpl.
    rewrite app_nil_r, (right_id_L ∅ (∪)). done.
  - cbv zeta. rewrite add_additional_cons.
    unfold matched_users, unmatched. cbn [omap list_omap].
    rewrite filter_cons.
    destruct (first_user_by_email email w) as [user|] eqn:Hu.
    + destruct (IH (user_set ∪ {[user_pk user]}) w base rows Hg)
        as (H1 & H2 & H3 & H4 & H5).
      rewrite decide_False by done.
      split_and!; try done.
      rewrite H1. unfold matched_users.
      by rewrite fmap_cons, list_to_set_cons, (assoc_L (∪)).
    + set (w1 := (QueuedMail_create _ w).2).
      assert (grows base (rows ++ [ComposeMail.address_mail req form email])
                (queued_mails w1)) as Hg1.
      { subst w1. simpl. by apply grows_insert. }
      destruct (IH user_set w1 base _ Hg1) as (H1 & H2 & H3 & H4 & H5).
      rewrite decide_True by done.
      split_and!; try done.
      rewrite fmap_cons.
      replace (unmatched w1 emails) with
        (filter (λ email0, first_user_by_email email0 w = None) emails)
        in H2 by done.
      by rewrite <- app_assoc in H2.
Qed.

Lemma user_mail_step req form user w :
  let w' := ((mail ← QueuedMail_create (ComposeMail.user_mail req form);
              to_users_add mail user) w).2 in
  queued_mails w' =
    <[fresh_pk (queued_mails w) := user_mail_to req form user]>
      (queued_mails w)
  ∧ users w' = users w ∧ flash w' = flash w
  ∧ mail_templates w' = mail_templates w.
Proof.
  unfold QueuedMail_create, to_users_add. run. split_and!; try done.
  by rewrite alter_insert_eq.
Qed.

Lemma user_mails_spec req form (l : list Z) :
  ∀ w base rows,
    grows base rows (queued_mails w) →
    let w' := (for_each l
                 (λ user,
                    mail ← QueuedMail_create (ComposeMail.user_mail req form);
                    to_users_add mail user) w).2 in
    grows base (rows ++ (user_mail_to req form <$> l)) (queued_mails w')
    ∧ flash w' = flash w
    ∧ mail_templates w' = mail_templates w.
Proof.
  induction l as [|user l IH]; intros w base rows Hg.
  - simpl. by rewrite app_nil_r.
  - cbv zeta. rewrite for_each_cons.
    destruct (user_mail_step req form user w) as (Hm & Hu & Hf & Ht).
    set (w1 := ((mail ← QueuedMail_create (ComposeMail.user_mail req form);
                 to_users_add mail user) w).2) in *.
    assert (grows base (rows ++ [user_mail_to req form user])
              (queued_mails w1)) as Hg1.
    { rewrite Hm. by apply grows_insert. }
    destruct (IH w1 base _ Hg1) as (H1 & H2 & H3).
    rewrite fmap_cons. rewrite <- app_assoc in H1.
    split_and!; [done|congruence|congruence].
Qed.

(** What a valid compose submission does, in terms of the world [w] it
    starts from: the final user set is the users of the criteria together
    with the users the additional addresses resolve to; the rows added to
    the table are one row per address that resolves to no user and one row
    per user of the final set; the message reports the size of the final
    user set plus the number of all additional addresses. *)
Definition final_user_set (req : Request) (form : WriteMailForm) (w : World)
    : gset Z :=
  ComposeMail.criteria_users req form w
  ∪ list_to_set (matched_users w (ComposeMail.additional_mails form)).

Lemma ComposeMail_form_valid_eq req form w :
  ComposeMail.form_valid req form w =
  let r1 := ComposeMail.add_additional req form
              (ComposeMail.additional_mails form)
              (ComposeMail.criteria_users req form w) w in
  let w2 := (for_each (elements r1.1)
               (λ user,
                  mail ← QueuedMail_create (ComposeMail.user_mail req form);
                  to_users_add mail user) r1.2).2 in
  (Redirect (compose_mails (event_pk (req_event req))),
   add_message
     {| level := SUCCESS;
        msg := "{count} emails have been saved to the outbox – you can make individual changes there or just send them all.";
        count := Some (size r1.1
                       + List.length (ComposeMail.additional_mails form))%nat
     |} w2).
Proof.
  unfold ComposeMail.form_valid.
  unfold mbind at 1, M_bind at 1, get_world. cbv beta iota zeta.
  unfold mbind at 1, M_bind at 1.
  destruct (ComposeMail.add_additional req form _ _ w) as [user_set w1].
  unfold mbind at 1, M_bind at 1.
  cbn [fst snd]. by destruct (for_each (elements user_set) _ w1) as [[] w2].
Qed.

Lemma ComposeMail_form_valid_spec req form w :
  let r := ComposeMail.form_valid req form w in
  response_of r = Redirect (compose_mails (event_pk (req_event req)))
  ∧ queued_mails w ⊆ queued_mails (world_of r)
  ∧ created w (world_of r) ≡ₚ
      (ComposeMail.address_mail req form <$>
         unmatched w (ComposeMail.additional_mails form))
      ++ (user_mail_to req form <$> elements (final_user_set req form w))
  ∧ flash (world_of r) =
      flash w ++
      [{| level := SUCCESS;
          msg := "{count} emails have been saved to the outbox – you can make individual changes there or just send them all.";
          count := Some (size (final_user_set req form w)
                         + List.length (ComposeMail.additional_mails form))%nat
       |}]
  ∧ mail_templates (world_of r) = mail_templates w.
Proof.
  rewrite ComposeMail_form_valid_eq. cbv zeta.
  unfold response_of, world_of.
  destruct (add_additional_spec req form (ComposeMail.additional_mails form)
              (ComposeMail.criteria_users req form w) w (queued_mails w) []
              (grows_refl _)) as (Hset & Hg & _ & Hf & Ht).
  fold (final_user_set req form w) in Hset.
  set (r1 := ComposeMail.add_additional req form _ _ w) in *.
  rewrite Hset.
  destruct (user_mails_spec req form (elements (final_user_set req form w))
              r1.2 (queued_mails w) _ Hg) as ([Hsub Hrows] & Hf2 & Ht2).
  simpl. split_and!; [done|done|exact Hrows|congruence|congruence].
Qed.

Lemma length_filter_fmap {A B} (f : A → B) (P : B → Prop) (Q : A → Prop)
    `{∀ b, Decision (P b)} `{∀ a, Decision (Q a)} (l : list A) :
  (∀ x, P (f x) ↔ Q x) →
  List.length (filter P (f <$> l)) = List.length (filter Q l).
Proof.
  intros HPQ. induction l as [|x l IH]; [done|].
  rewrite fmap_cons, !filter_cons.
  destruct (decide (P (f x))) as [HP|HP], (decide (Q x)) as [HQ|HQ];
    simpl; rewrite ?IH; try done; exfalso;
    [by apply HQ, HPQ|by apply HP, HPQ].
Qed.

Lemma filter_nothing {A} (P : A → Prop) `{∀ x, Decision (P x)}
    (l : list A) :
  (∀ x, ¬ P x) → filter P l = [].
Proof.
  intros HP. induction l as [|x l IH]; [done|]. rewrite filter_cons, IH.
  by rewrite decide_False by apply HP.
Qed.

Lemma filter_False {A} (l : list A) : filter (λ _, False) l = [].
Proof. apply filter_nothing. by intros _ []. Qed.

Lemma length_filter_eq_NoDup `{EqDecision A} (a : A) (l : list A) :
  NoDup l →
  List.length (filter (λ x, x = a) l) = if decide (a ∈ l) then 1%nat else 0%nat.
Proof.
  induction 1 as [|x l Hx Hl IH]; [done|].
  rewrite filter_cons. destruct (decide (x = a)) as [->|Hne]; simpl.
  - rewrite decide_True by left.
    rewrite decide_False in IH by done. by rewrite IH.
  - rewrite IH. destruct (decide (a ∈ l)) as [Hin|Hin].
    + by rewrite decide_True by (by right).
    + rewrite decide_False; [done|]. intros [?|?]%elem_of_cons; done.
Qed.

(** C2.  A valid compose submission, run in a world [w].  The final user
    set is made of the users the criteria resolve to and of the user of
    every additional address that matches one.  The rows added to the
    table are, up to order, one standalone row per additional address that
    matches no user and one row per user of the final set, whose only
    recipient is that user; the rows that were there remain.  Hence a user
    is the recipient of exactly one new row if in the final set and of none
    otherwise, and an address that matches a user gets no standalone row
    while one that matches none gets a row for each of its occurrences in
    the list. *)
Theorem compose_one_mail_per_recipient (req : Request) (form : WriteMailForm)
    (w : World) :
  let w' := world_of (ComposeMail.form_valid req form w) in
  let addresses := ComposeMail.additional_mails form in
  let user_set := final_user_set req form w in
  (∀ user, user ∈ user_set ↔
       user ∈ ComposeMail.criteria_users req form w
       ∨ ∃ email u, email ∈ addresses
                    ∧ first_user_by_email email w = Some u
                    ∧ user_pk u = user)
  ∧ queued_mails w ⊆ queued_mails w'
  ∧ created w w' ≡ₚ
      (ComposeMail.address_mail req form <$> unmatched w addresses)
      ++ (user_mail_to req form <$> elements user_set)
  ∧ (∀ user,
       List.length (filter (λ row, user ∈ to_users row) (created w w'))
       = if decide (user ∈ user_set) then 1%nat else 0%nat)
  ∧ (∀ user row, row ∈ created w w' → user ∈ to_users row →
       to_users row = [user] ∧ to row = None)
  ∧ (∀ email,
       List.length (filter (λ row, to row = Some email) (created w w'))
       = if decide (first_user_by_email email w = None)
         then List.length (filter (λ e, e = email) addresses)
         else 0%nat).
Proof.
  intros w' addresses user_set.
  destruct (ComposeMail_form_valid_spec req form w)
    as (_ & Hsub & Hcreated & _ & _).
  fold w' addresses user_set in Hsub, Hcreated.
  split_and!; [|done|done| | |].
  - intros user. unfold user_set, final_user_set, matched_users.
    fold addresses. rewrite elem_of_union, elem_of_list_to_set.
    apply or_iff_compat_l. rewrite list_elem_of_fmap. split.
    + intros (u & -> & Hu). apply list_elem_of_omap in Hu as (email & ? & ?).
      by exists email, u.
    + intros (email & u & ? & ? & <-). exists u. split; [done|].
      apply list_elem_of_omap. by exists email.
  - intros user. rewrite Hcreated, filter_app, length_app.
    rewrite (length_filter_fmap _ _ (λ _, False))
      by (intros ?; simpl; split; [by intros ?%elem_of_nil|done]).
    rewrite (length_filter_fmap _ _ (λ u, u = user)).
    2:{ intros u. simpl. rewrite list_elem_of_singleton. by split. }
    rewrite length_filter_eq_NoDup by apply NoDup_elements.
    rewrite filter_False.
    simpl. destruct (decide (user ∈ user_set)) as [Hin|Hin].
    + by rewrite decide_True by (by apply elem_of_elements).
    + rewrite decide_False; [done|]. by rewrite elem_of_elements.
  - intros user row Hrow Huser. rewrite Hcreated in Hrow.
    apply elem_of_app in Hrow as [Hrow|Hrow];
      apply list_elem_of_fmap in Hrow as (x & -> & _); simpl in *.
    + by apply elem_of_nil in Huser.
    + apply list_elem_of_singleton in Huser as ->. done.
  - intros email. rewrite Hcreated, filter_app, length_app.
    rewrite (length_filter_fmap _ _ (λ e, e = email)).
    2:{ intros e. simpl. split; [by intros [= ->]|by intros ->]. }
    rewrite (length_filter_fmap _ _ (λ _, False)) by (by simpl).
    rewrite filter_False.
    simpl. rewrite Nat.add_0_r. unfold unmatched.
    rewrite list_filter_filter.
    destruct (decide (first_user_by_email email w = None)) as [Hn|Hn].
    + f_equal. apply list_filter_iff. intros e.
      split; [by intros [? _]|by intros ->].
    + rewrite filter_nothing; [done|]. by intros x [-> ?].
Qed.

Lemma created_rows_of_form_valid req form w row :
  row ∈ created w (world_of (ComposeMail.form_valid req form w)) →
  (∃ email, row = ComposeMail.address_mail req form email)
  ∨ (∃ user, row = user_mail_to req form user).
Proof.
  destruct (ComposeMail_form_valid_spec req form w)
    as (_ & _ & Hcreated & _ & _).
  rewrite Hcreated. intros [Hrow|Hrow]%elem_of_app;
    apply list_elem_of_fmap in Hrow as (x & -> & _); eauto.
Qed.

(** [dict.get] with a default: when the cleaned data of a compose
    submission has no [reply_to] entry, every row the submission adds to
    the table, standalone or per user, has the event's address as its
    reply-to. *)
Remark compose_reply_to_key_absent (req : Request)
    (form : WriteMailForm) (w : World) (row : QueuedMail) :
  cd_reply_to form = None →
  row ∈ created w (world_of (ComposeMail.form_valid req form w)) →
  reply_to row = Some (event_email (req_event req)).
Proof.
  intros Hkey Hrow.
  apply created_rows_of_form_valid in Hrow as [[email ->]|[user ->]];
    simpl; unfold ComposeMail.reply_to_or_default; by rewrite Hkey.
Qed.

(** An entry that is there, empty or [None] included, is what the rows
    get. *)
Remark compose_reply_to_supplied (req : Request) (form : WriteMailForm)
    (w : World) (row : QueuedMail) (value : option string) :
  cd_reply_to form = Some value →
  row ∈ created w (world_of (ComposeMail.form_valid req form w)) →
  reply_to row = value.
Proof.
  intros Hkey Hrow.
  apply created_rows_of_form_valid in Hrow as [[email ->]|[user ->]];
    simpl; unfold ComposeMail.reply_to_or_default; by rewrite Hkey.
Qed.

(** C5, at the specification's example with the reply-to field left blank.
    [reply_to] is a field of the form, so the cleaned data have the key,
    with the empty string; [dict.get] finds it and does not use its
    default.  Both rows, the one for the user and the standalone one, get
    the empty reply-to and not the event's address. *)
Theorem compose_blank_reply_to_example :
  let req := Sample.request POST None in
  let w := Sample.empty_outbox in
  let form := Sample.blank_reply_to_form in
  let w' := world_of (ComposeMail.form_valid req form w) in
  cd_reply_to form = Some (Some "")
  ∧ event_email (req_event req) = "orga@conf.org"
  ∧ created w w'
    = [user_mail_to req form 7; ComposeMail.address_mail req form "b@y.com"]
  ∧ reply_to <$> created w w' = [Some ""; Some ""].
Proof. vm_compute. repeat split. Qed.

(** ** Compose: the reported count *)

Lemma matched_unmatched_length w (emails : list string) :
  List.length emails
  = (List.length (unmatched w emails) + List.length (matched_users w emails))%nat.
Proof.
  unfold unmatched, matched_users.
  induction emails as [|email emails IH]; [done|].
  rewrite filter_cons. cbn [omap list_omap].
  destruct (first_user_by_email email w) eqn:E.
  - rewrite decide_False by done. rewrite fmap_cons. simpl in *. lia.
  - rewrite decide_True by done. simpl in *. lia.
Qed.

(** The count of the success message is the number of rows the submission
    added to the table plus the number of additional addresses that matched
    a user: each such address is counted, although it gets no row of its
    own. *)
Lemma compose_reported_count (req : Request) (form : WriteMailForm)
    (w : World) :
  let w' := world_of (ComposeMail.form_valid req form w) in
  ∃ m, flash w' = flash w ++ [m]
       ∧ level m = SUCCESS
       ∧ count m =
           Some (List.length (created w w')
                 + List.length
                     (matched_users w (ComposeMail.additional_mails form)))%nat.
Proof.
  destruct (ComposeMail_form_valid_spec req form w)
    as (_ & _ & Hcreated & Hflash & _).
  cbv zeta. eexists. split; [exact Hflash|]. split; [done|]. simpl.
  rewrite Hcreated, length_app, !length_fmap.
  rewrite (matched_unmatched_length w (ComposeMail.additional_mails form)).
  f_equal. unfold size, set_size. simpl. lia.
Qed.

(** C1, at the specification's own example: no criteria, the additional
    recipients ["a@x.com, A@X.com, b@y.com"], and a user whose address is
    [a@x.com].  The final user set has one user and the table gets two rows,
    one for that user and one for [b@y.com]; the message reports 4. *)
Theorem compose_count_example :
  let req := Sample.request POST None in
  let w := Sample.empty_outbox in
  let w' := world_of (ComposeMail.form_valid req Sample.compose_form w) in
  ComposeMail.additional_mails Sample.compose_form
    = ["a@x.com"; "a@x.com"; "b@y.com"]
  ∧ elements (final_user_set req Sample.compose_form w) = [7]
  ∧ created w w'
    = [user_mail_to req Sample.compose_form 7;
       ComposeMail.address_mail req Sample.compose_form "b@y.com"]
  ∧ count <$> flash w' = [Some 4%nat].
Proof. vm_compute. repeat split. Qed.

(** ** Mail detail: the audit-log entry *)

(** [form_valid] on its own, whatever [self.object] it is run with: when
    the save goes through with changed values, it writes exactly one
    audit-log entry, and its tag is [pretalx.mail.update]: the tag is
    computed from [self.object] after [super().form_valid(form)] has set it
    to the saved instance. *)
Remark mail_detail_log_entry (req : Request) (form : MailDetailForm)
    (object : option MailDetail.Instance) (w : World) :
  sent (MailDetail.form_instance req form object).2 = None →
  md_has_changed form = true →
  ∃ pk,
    List.filter is_LogAction
      (appended (journal w)
         (journal (world_of (MailDetail.form_valid req form object w))))
    = [LogAction "pretalx.mail.update" (MailRef (Some pk)) (req_user req)
         true].
Proof.
  intros Hsent Hchanged. unfold MailDetail.form_valid, world_of.
  rewrite Hsent, Hchanged. unfold MailDetail.form_save.
  destruct (MailDetail.form_instance req form object) as [[pk|] row];
    [exists pk|exists (fresh_pk (queued_mails w))];
    unfold QueuedMail_create, send; run;
    repeat case_decide; simpl;
    rewrite <- ?app_assoc; rewrite appended_app; reflexivity.
Qed.


(** ** Request methods, mutations and redirects *)

(** The routes that do their work in [dispatch], before the request method
    is looked at: single-record send and purge, copy, template delete. *)
Definition acts_in_dispatch (route : Route) (req : Request) : bool :=
  match route with
  | outbox_send | outbox_purge => bool_decide (is_Some (kwargs_pk req))
  | mail_copy | template_delete => true
  | _ => false
  end.

Definition with_method (m : Method) (req : Request) : Request :=
  {| method := m; req_event := req_event req; req_user := req_user req;
     perms := perms req; req_GET := req_GET req;
     kwargs_pk := kwargs_pk req |}.

(** Where a redirect of the route may lead: a listing page of the event,
    or, after a copy, the edit page of the new draft. *)
Definition redirect_target (route : Route) (req : Request) (url : Url)
    : Prop :=
  match route with
  | outbox_send | outbox_purge | mail_detail _ =>
      url = outbox (event_pk (req_event req))
  | compose_mail _ => url = compose_mails (event_pk (req_event req))
  | template_detail _ | template_delete =>
      url = mail_templates_url (event_pk (req_event req))
  | mail_copy => ∃ pk, url = mail_edit pk
  | outbox_list | sent_mail | template_list => False
  end.

(** The mail-detail save whose [form] field names neither [save] nor
    [send]: it saves and redirects without a message. *)
Definition silent_save (route : Route) : Prop :=
  match route with
  | mail_detail form =>
      default "save" (md_data_form form) ≠ "save"
      ∧ default "save" (md_data_form form) ≠ "send"
  | _ => False
  end.

Definition one_message (w w' : World) : Prop :=
  ∃ m, flash w' = flash w ++ [m].

Lemma for_each_send_flash (keys : list Z) requestor (w : World) :
  flash (for_each keys (λ mail, send mail requestor) w).2 = flash w.
Proof.
  apply (hoare_for_each (λ w', flash w' = flash w)); [|done].
  intros x _ w' Hw'. done.
Qed.

Lemma OutboxSend_outcome req w :
  let r := OutboxSend.dispatch req w in
  (is_Redirect r.1 = false → r.2 = w)
  ∧ (∀ url, r.1 = Redirect url →
       url = outbox (event_pk (req_event req)) ∧ one_message w r.2)
  ∧ (method req ≠ POST → method req ≠ PUT → kwargs_pk req = None →
     is_Redirect r.1 = false).
Proof.
  unfold OutboxSend.dispatch, one_message.
  destruct (kwargs_pk req) as [pk|] eqn:Hk.
  - run. destruct (event_queued_mails (req_event req) w !! pk) as [m|];
      [destruct (sent m)|]; simpl; split_and!; try done;
      intros url [= <-]; split; try done; eexists; done.
  - unfold PermissionRequired_dispatch, View_dispatch.
    case_decide; [|by split_and!].
    destruct (method req) eqn:Hm; simpl; try (by split_and!).
    unfold OutboxSend.post, OutboxSend.queryset. rewrite Hk. run.
    pose proof (for_each_send_flash
                  (map_to_list
                     (sent__isnull (event_queued_mails (req_event req) w))).*1
                  (Some (req_user req)) w) as Hflash.
    destruct (for_each _ _ w) as [[] w1]. simpl in *.
    split_and!; try done. intros url [= <-]. split; [done|].
    eexists. by rewrite Hflash.
Qed.

Lemma OutboxPurge_outcome req w :
  let r := OutboxPurge.dispatch req w in
  (is_Redirect r.1 = false → r.2 = w)
  ∧ (∀ url, r.1 = Redirect url →
       url = outbox (event_pk (req_event req)) ∧ one_message w r.2)
  ∧ (method req ≠ POST → method req ≠ PUT → kwargs_pk req = None →
     is_Redirect r.1 = false).
Proof.
  unfold OutboxPurge.dispatch, one_message.
  destruct (kwargs_pk req) as [pk|] eqn:Hk.
  - run.
    destruct (sent__isnull (event_queued_mails (req_event req) w) !! pk)
      as [m|]; [destruct (sent m)|]; simpl; split_and!; try done;
      intros url [= <-]; split; try done; eexists; done.
  - unfold PermissionRequired_dispatch, View_dispatch.
    case_decide; [|by split_and!].
    destruct (method req) eqn:Hm; simpl; try (by split_and!).
    unfold OutboxPurge.post, OutboxPurge.queryset. rewrite Hk. run.
    destruct (QuerySet_delete_spec
                (sent__isnull (event_queued_mails (req_event req) w)) w)
      as (_ & Hflash & _).
    destruct (QuerySet_delete _ w) as [[] w1]. simpl in *.
    split_and!; try done. intros url [= <-]. split; [done|].
    eexists. by rewrite Hflash.
Qed.

Lemma read_only_view_outcome perm req template w :
  let r := PermissionRequired_dispatch perm req
             (View_dispatch req (Some (render template)) None None) w in
  r.2 = w ∧ is_Redirect r.1 = false.
Proof.
  unfold PermissionRequired_dispatch, View_dispatch.
  case_decide; [|done]. by destruct (method req).
Qed.

Lemma MailDetail_form_valid_outcome req form object w :
  (∀ o, object = Some o → event o.2 = event_pk (req_event req)) →
  let r := MailDetail.form_valid req form object w in
  r.1 = Redirect (outbox (event_pk (req_event req)))
  ∧ (one_message w r.2
     ∨ (silent_save (mail_detail form) ∧ flash r.2 = flash w)).
Proof.
  intros Hobj. unfold MailDetail.form_valid, one_message, silent_save.
  destruct object as [[opk orow]|]; simpl.
  - specialize (Hobj _ eq_refl). simpl in Hobj.
    destruct (sent orow); run; [rewrite Hobj; split; [done|left; by eexists]|].
    destruct opk as [pk|]; unfold QueuedMail_create; run;
      destruct (md_has_changed form); repeat case_decide; simpl;
      (split; [done|]); try (left; by eexists); by right.
  - unfold QueuedMail_create; run.
    destruct (md_has_changed form); repeat case_decide; simpl;
      (split; [done|]); try (left; by eexists); by right.
Qed.

Lemma MailDetail_outcome req form w :
  let r := MailDetail.dispatch req form w in
  (is_Redirect r.1 = false → r.2 = w)
  ∧ (∀ url, r.1 = Redirect url →
       url = outbox (event_pk (req_event req))
       ∧ (one_message w r.2
          ∨ (silent_save (mail_detail form) ∧ flash r.2 = flash w)))
  ∧ (method req ≠ POST → method req ≠ PUT → is_Redirect r.1 = false).
Proof.
  unfold MailDetail.dispatch, PermissionRequired_dispatch_object,
    PermissionRequired_dispatch, View_dispatch. run.
  destruct (MailDetail.get_object req w) eqn:Hobject; [|by split_and!].
  case_decide; [|by split_and!].
  assert (let r := MailDetail.post req form w in
          (is_Redirect r.1 = false → r.2 = w)
          ∧ (∀ url, r.1 = Redirect url →
               url = outbox (event_pk (req_event req))
               ∧ (one_message w r.2
                  ∨ (silent_save (mail_detail form) ∧ flash r.2 = flash w))))
    as Hpost.
  { unfold MailDetail.post, ProcessFormView_post. run.
    destruct (md_is_valid form); [|by split].
    destruct (MailDetail_form_valid_outcome req form
                (MailDetail.get_object req w) w) as [Hr Hm].
    { intros [opk orow] Ho. unfold MailDetail.get_object in Ho.
      destruct (kwargs_pk req) as [pk|]; [|done]. simpl in Ho.
      rewrite event_queued_mails_lookup in Ho.
      destruct (queued_mails w !! pk); [|done].
      case_decide; [|done]. simpl in Ho. by simplify_eq. }
    rewrite Hr. split; [done|]. by intros url [= <-]. }
  destruct (method req); simpl; try (by split_and!);
    destruct Hpost as [H1 H2]; by split_and!.
Qed.

Lemma MailCopy_outcome req w :
  let r := MailCopy.dispatch req w in
  (is_Redirect r.1 = false → r.2 = w)
  ∧ (∀ url, r.1 = Redirect url →
       (∃ pk, url = mail_edit pk) ∧ one_message w r.2).
Proof.
  unfold MailCopy.dispatch, one_message. run.
  destruct (MailCopy.get_object req w); [|by split].
  unfold copy_to_draft, QueuedMail_create. simpl. split; [done|].
  intros url [= <-]. split; by eexists.
Qed.

Lemma ComposeMail_outcome req form w :
  let r := ComposeMail.dispatch req form w in
  (is_Redirect r.1 = false → r.2 = w)
  ∧ (∀ url, r.1 = Redirect url →
       url = compose_mails (event_pk (req_event req)) ∧ one_message w r.2)
  ∧ (method req ≠ POST → method req ≠ PUT → is_Redirect r.1 = false).
Proof.
  unfold ComposeMail.dispatch, PermissionRequired_dispatch, View_dispatch,
    ComposeMail.post, ComposeMail.with_form, ProcessFormView_post,
    one_message.
  case_decide; [|by split_and!].
  destruct (ComposeMail_form_valid_spec req form w)
    as (Hr & _ & _ & Hflash & _).
  unfold response_of, world_of in *.
  destruct (method req); simpl; try (by split_and!); run;
    (destruct (ComposeMail.get_form_kwargs req ∅ w); [by split_and!|]);
    try (by split_and!);
    (destruct (wm_is_valid form); [|by split_and!]);
    rewrite Hr; (split_and!; [done| |done]);
    intros url [= <-]; (split; [done|by eexists]).
Qed.

Lemma TemplateDetail_outcome req form w :
  let r := TemplateDetail.dispatch req form w in
  (is_Redirect r.1 = false → r.2 = w)
  ∧ (∀ url, r.1 = Redirect url →
       url = mail_templates_url (event_pk (req_event req))
       ∧ one_message w r.2)
  ∧ (method req ≠ POST → method req ≠ PUT → is_Redirect r.1 = false).
Proof.
  unfold TemplateDetail.dispatch, PermissionRequired_dispatch, View_dispatch,
    TemplateDetail.post, ProcessFormView_post, TemplateDetail.form_valid,
    TemplateDetail.form_save, one_message.
  case_decide; [|by split_and!]. run.
  destruct (method req); simpl; try (by split_and!);
    (destruct (tf_is_valid form); [|by split_and!]);
    destruct (TemplateDetail.get_object req w) as [[[k|] t]|]; simpl;
    destruct (tf_has_changed form); simpl;
    (split_and!; [done| |done]);
    intros url [= <-]; (split; [done|by eexists]).
Qed.

Lemma TemplateDelete_outcome req w :
  let r := TemplateDelete.dispatch req w in
  (is_Redirect r.1 = false → r.2 = w)
  ∧ (∀ url, r.1 = Redirect url →
       url = mail_templates_url (event_pk (req_event req))
       ∧ one_message w r.2).
Proof.
  unfold TemplateDelete.dispatch, PermissionRequired_dispatch, View_dispatch,
    MailTemplate_delete, one_message.
  case_decide; [|by split]. run.
  destruct (method req); simpl;
    destruct (TemplateDelete.get_object req w) as [[pk t]|]; simpl;
    (split; [done|]); try done;
    intros url [= <-]; (split; [done|by eexists]).
Qed.

(** How a GET request is answered where it does not act: with the page,
    with a refusal, or, on the compose page when the [template] parameter
    is there, with the exception of the template query. *)
Definition answers_get (route : Route) (req : Request) (r : Response)
    : Prop :=
  match r with
  | TemplateResponse _ | PermissionDenied => True
  | ServerError _ =>
      (∃ form, route = compose_mail form)
      ∧ is_Some (req_GET req !! "template")
  | _ => False
  end.

Lemma get_is_answered route req w :
  method req = GET → acts_in_dispatch route req = false →
  answers_get route req (handle route req w).1.
Proof.
  intros Hm Hacts.
  destruct route; simpl in *; try done;
    try (apply bool_decide_eq_false in Hacts;
         destruct (kwargs_pk req) eqn:Hk; [by destruct Hacts|]);
    unfold OutboxList.dispatch, SentMail.dispatch, OutboxSend.dispatch,
      OutboxPurge.dispatch, MailDetail.dispatch, ComposeMail.dispatch,
      TemplateList.dispatch, TemplateDetail.dispatch,
      PermissionRequired_dispatch_object, PermissionRequired_dispatch,
      View_dispatch, ComposeMail.with_form;
    rewrite ?Hk, ?Hm; run;
    try (lazymatch goal with
         | |- context [MailDetail.get_object req w] =>
             destruct (MailDetail.get_object req w)
         end);
    try done; (case_decide; [|done]); simpl; try done.
  destruct (ComposeMail.get_form_kwargs req ∅ w) as [e|] eqn:E; [|done].
  simpl. split; [by eexists|].
  unfold ComposeMail.get_form_kwargs in E.
  destruct (req_GET req !! "template"); [done|]. simpl in E. done.
Qed.

(** C4, as the code has it.  On every route but those that act in
    [dispatch], only a POST, or a PUT, which the form views handle as a
    POST, can change anything: a request with another method changes
    nothing and is not answered by a redirect, and a GET is answered with
    the page, with a refusal or, on the compose page, with the exception of
    the template query.  Single-record send and purge, copy and template
    delete act in [dispatch] and answer every request method, GET
    included, in the same way.  A request that is not answered by a
    redirect leaves the world untouched, so every mutation ends in a
    redirect; a redirect leads to the outbox, the compose page or the
    template list of the event, or after a copy to the edit page of the new
    draft, and comes with exactly one new flash message, except for a
    mail-detail save whose [form] field names neither [save] nor [send]. *)
Theorem methods_mutations_and_redirects (route : Route) (req : Request)
    (w : World) :
  let r := handle route req w in
  (acts_in_dispatch route req = false →
     method req ≠ POST → method req ≠ PUT →
     world_of r = w ∧ is_Redirect (response_of r) = false)
  ∧ (acts_in_dispatch route req = false → method req = GET →
     answers_get route req (response_of r))
  ∧ (acts_in_dispatch route req = true →
     ∀ m, handle route (with_method m req) w = r)
  ∧ (is_Redirect (response_of r) = false → world_of r = w)
  ∧ (∀ url, response_of r = Redirect url →
       redirect_target route req url
       ∧ (one_message w (world_of r)
          ∨ (silent_save route ∧ flash (world_of r) = flash w))).
Proof.
  intros r.
  assert (acts_in_dispatch route req = false → method req = GET →
          answers_get route req (response_of r)) as Hget.
  { intros Hacts Hm. by apply get_is_answered. }
  revert Hget. subst r.
  unfold response_of, world_of. destruct route; simpl; intros Hget.
  - destruct (read_only_view_outcome OutboxList.permission_required req
                OutboxList.template_name w) as [Hw Hr].
    unfold OutboxList.dispatch. split_and!; try done.
    intros url Hu. rewrite Hu in Hr. done.
  - destruct (read_only_view_outcome SentMail.permission_required req
                SentMail.template_name w) as [Hw Hr].
    unfold SentMail.dispatch. split_and!; try done.
    intros url Hu. rewrite Hu in Hr. done.
  - destruct (OutboxSend_outcome req w) as (H1 & H2 & H3).
    split_and!; try done.
    + intros Hk Hpost Hput. apply bool_decide_eq_false in Hk.
      destruct (kwargs_pk req) eqn:E; [by destruct Hk|]. auto.
    + intros Hk m. apply bool_decide_eq_true in Hk as [pk Hk].
      unfold OutboxSend.dispatch. simpl. by rewrite Hk.
    + intros url Hu. destruct (H2 url Hu). auto.
  - destruct (OutboxPurge_outcome req w) as (H1 & H2 & H3).
    split_and!; try done.
    + intros Hk Hpost Hput. apply bool_decide_eq_false in Hk.
      destruct (kwargs_pk req) eqn:E; [by destruct Hk|]. auto.
    + intros Hk m. apply bool_decide_eq_true in Hk as [pk Hk].
      unfold OutboxPurge.dispatch. simpl. by rewrite Hk.
    + intros url Hu. destruct (H2 url Hu). auto.
  - destruct (MailDetail_outcome req form w) as (H1 & H2 & H3).
    split_and!; try done. auto.
  - destruct (MailCopy_outcome req w) as (H1 & H2).
    split_and!; try done. intros url Hu. destruct (H2 url Hu). auto.
  - destruct (ComposeMail_outcome req form w) as (H1 & H2 & H3).
    split_and!; try done; [auto|].
    intros url Hu. destruct (H2 url Hu). auto.
  - destruct (read_only_view_outcome TemplateList.permission_required req
                TemplateList.template_name w) as [Hw Hr].
    unfold TemplateList.dispatch. split_and!; try done.
    intros url Hu. rewrite Hu in Hr. done.
  - destruct (TemplateDetail_outcome req form w) as (H1 & H2 & H3).
    split_and!; try done; [auto|].
    intros url Hu. destruct (H2 url Hu). auto.
  - destruct (TemplateDelete_outcome req w) as (H1 & H2).
    split_and!; try done.
    + intros _ m. unfold TemplateDelete.dispatch, PermissionRequired_dispatch,
        View_dispatch. simpl. run.
      case_decide; [|done]. by destruct m, (method req).
    + intros url Hu. destruct (H2 url Hu). auto.
Qed.

(** C4, as stated, fails: a GET request for the single-record purge of an
    unsent mail deletes the mail; and a PUT request to the mail-detail
    form saves the mail as a POST does. *)
Lemma get_request_deletes_mail :
  let req := Sample.request GET (Some 1) in
  let r := handle outbox_purge req Sample.world in
  let put := Sample.request PUT (Some 1) in
  let r' := handle (mail_detail Sample.detail_form) put Sample.world in
  method req = GET
  ∧ queued_mails Sample.world !! 1 = Some Sample.draft
  ∧ queued_mails (world_of r) !! 1 = None
  ∧ response_of r = Redirect (outbox 1)
  ∧ method put = PUT
  ∧ response_of r' = Redirect (outbox 1)
  ∧ subject <$> queued_mails (world_of r') !! 1 = Some (Some "Draft")
  ∧ subject Sample.draft = Some "Schedule".
Proof. vm_compute. repeat split. Qed.

(** ** The statements at the sample data *)

Lemma single_send_outcomes_witness :
  let req := Sample.request POST (Some 1) in
  let r := OutboxSend.dispatch req Sample.world in
  kwargs_pk req = Some 1
  ∧ event_queued_mails (req_event req) Sample.world !! 1 = Some Sample.draft
  ∧ response_of r = Redirect (outbox 1)
  ∧ appended (journal Sample.world) (journal (world_of r))
    = [Send 1 (Some 9)].
Proof.
  intros req r.
  assert (event_queued_mails (req_event req) Sample.world !! 1
          = Some Sample.draft) as Hmail by (vm_compute; reflexivity).
  destruct (single_send_outcomes req 1 Sample.world eq_refl) as [Hr H].
  rewrite Hmail in H. simpl in H. destruct H as [Hj _].
  split; [reflexivity|]. split; [exact Hmail|]. split; [exact Hr|exact Hj].
Defined.

Lemma single_purge_outcomes_witness :
  let req := Sample.request POST (Some 1) in
  let r := OutboxPurge.dispatch req Sample.world in
  kwargs_pk req = Some 1
  ∧ queued_mails Sample.world !! 1 = Some Sample.draft
  ∧ appended (journal Sample.world) (journal (world_of r))
    = [LogAction "pretalx.mail.delete" (MailRef (Some 1)) 9 true;
       Deleted (MailRef (Some 1))]
  ∧ queued_mails (world_of r) = delete 1 (queued_mails Sample.world).
Proof.
  intros req r.
  assert (queued_mails Sample.world !! 1 = Some Sample.draft) as Hmail
    by (vm_compute; reflexivity).
  destruct (single_purge_outcomes req 1 Sample.draft Sample.world eq_refl
              Hmail) as (_ & H & _).
  destruct (H eq_refl eq_refl) as (Hj & Hm & _).
  split; [reflexivity|]. split; [exact Hmail|]. split; [exact Hj|exact Hm].
Defined.


Lemma bulk_purge_removes_unsent_witness :
  let req := Sample.request POST None in
  let r := OutboxPurge.dispatch req Sample.world in
  method req = POST ∧ kwargs_pk req = None
  ∧ "orga.purge_mails" ∈ perms req
  ∧ queued_mails (world_of r) !! 1 = None
  ∧ queued_mails (world_of r) !! 2 = Some Sample.delivered
  ∧ queued_mails (world_of r) !! 3 = Some Sample.elsewhere
  ∧ count <$> flash (world_of r) = [Some 1%nat].
Proof.
  intros req r.
  assert ("orga.purge_mails" ∈ perms req) as Hperm.
  { apply (bool_decide_unpack _). vm_compute. exact I. }
  destruct (bulk_purge_removes_unsent req Sample.world eq_refl eq_refl Hperm)
    as (_ & Hrows & _).
  split; [reflexivity|]. split; [reflexivity|]. split; [exact Hperm|].
  split; [exact (Hrows 1)|]. split; [exact (Hrows 2)|].
  split; [exact (Hrows 3)|]. vm_compute. reflexivity.
Defined.

Lemma template_prefill_is_event_scoped_witness :
  let req := Sample.other_prefill_request in
  req_GET req !! "template" = Some "5"
  ∧ Py.int "5" = Some 5
  ∧ key_in_range 5
  ∧ mail_templates Sample.world !! 5 = Some Sample.foreign_template
  ∧ ∃ initial',
      ComposeMail.get_form_kwargs req ∅ Sample.world = inr initial'
      ∧ initial' !! "subject" = Some (Some "Reminder")
      ∧ initial' !! "bcc" = Some None.
Proof.
  intros req.
  assert (req_GET req !! "template" = Some "5") as Hparam
    by (vm_compute; reflexivity).
  assert (key_in_range 5) as Hrange by (unfold key_in_range; lia).
  assert (mail_templates Sample.world !! 5 = Some Sample.foreign_template)
    as Htemplate by (vm_compute; reflexivity).
  split; [exact Hparam|]. split; [reflexivity|]. split; [exact Hrange|].
  split; [exact Htemplate|].
  destruct (template_prefill_is_event_scoped req ∅ Sample.world
              "5" 5 Sample.foreign_template Hparam eq_refl Hrange Htemplate)
    as (initial' & Hinitial & Hfields).
  exists initial'. split; [exact Hinitial|]. split.
  - apply (Hfields "subject" (Some "Reminder")). unfold template_fields.
    apply elem_of_cons. by left.
  - apply (Hfields "bcc" None). unfold template_fields.
    do 3 (apply elem_of_cons; right). apply elem_of_cons. by left.
Defined.

(** * Further properties of the views *)

(** ** Bulk send *)

Lemma for_each_send (keys : list Z) (requestor : option Z) (w : World) :
  let w' := (for_each keys (λ mail, send mail requestor) w).2 in
  (∀ k, queued_mails w' !! k =
        if decide (k ∈ keys)
        then with_sent (Some (now w)) <$> queued_mails w !! k
        else queued_mails w !! k)
  ∧ flash w' = flash w
  ∧ mail_templates w' = mail_templates w
  ∧ now w' = now w
  ∧ journal w' = journal w ++ ((λ k, Send k requestor) <$> keys).
Proof.
  revert w. induction keys as [|key keys IH]; intros w.
  - simpl. split_and!; try done. by rewrite app_nil_r.
  - cbv zeta. rewrite for_each_cons.
    set (w1 := (send key requestor w).2).
    destruct (IH w1) as (Hl & Hf & Ht & Hn & Hj).
    assert (now w1 = now w) as Hnow by done.
    split_and!; [|by rewrite Hf|by rewrite Ht|by rewrite Hn| ].
    + intros k. rewrite Hl, Hnow. subst w1. unfold send. simpl.
      destruct (decide (k = key)) as [->|Hne].
      * rewrite lookup_alter_eq.
        rewrite (decide_True (P := key ∈ key :: keys)) by left.
        destruct (queued_mails w !! key); by case_decide.
      * rewrite lookup_alter_ne by done.
        destruct (decide (k ∈ keys)) as [Hin|Hin].
        -- by rewrite decide_True by (by right).
        -- rewrite decide_False; [done|].
           intros [?|?]%elem_of_cons; done.
    + rewrite Hj. subst w1. unfold send. simpl.
      by rewrite <- app_assoc.
Qed.

Lemma elem_of_keys (qs : gmap Z QueuedMail) (k : Z) :
  k ∈ (map_to_list qs).*1 ↔ is_Some (qs !! k).
Proof.
  rewrite list_elem_of_fmap. split.
  - intros ([k' m] & -> & Hin). apply elem_of_map_to_list in Hin. by eexists.
  - intros [m Hm]. exists (k, m). split; [done|].
    by apply elem_of_map_to_list.
Qed.

(** X1.  A permitted bulk send (POST without [pk]) calls [send] with the
    acting user as requestor once for every unsent mail of the event and
    for no other mail; these rows get their [sent] stamp and every other
    row is as before; the message reports their number; and afterwards the
    outbox of the event is empty. *)
Theorem bulk_send_empties_outbox (req : Request) (w : World) :
  method req = POST →
  kwargs_pk req = None →
  "orga.send_mails" ∈ perms req →
  let r := OutboxSend.dispatch req w in
  let unsent := sent__isnull (event_queued_mails (req_event req) w) in
  response_of r = Redirect (outbox (event_pk (req_event req)))
  ∧ (∀ k, queued_mails (world_of r) !! k =
          match unsent !! k with
          | Some m => Some (with_sent (Some (now w)) m)
          | None => queued_mails w !! k
          end)
  ∧ appended (journal w) (journal (world_of r))
    = (λ k, Send k (Some (req_user req))) <$> (map_to_list unsent).*1
  ∧ NoDup (map_to_list unsent).*1
  ∧ flash (world_of r) =
      flash w ++ [{| level := SUCCESS;
                     msg := "{count} mails have been sent.";
                     count := Some (List.length (map_to_list unsent).*1) |}]
  ∧ OutboxSend.queryset req (world_of r) = ∅.
Proof.
  intros Hmethod Hpk Hperm r unsent. subst r.
  unfold OutboxSend.dispatch, PermissionRequired_dispatch, View_dispatch,
    OutboxSend.post, OutboxSend.queryset, response_of, world_of.
  rewrite Hpk, Hmethod. rewrite decide_True by done. run. fold unsent.
  destruct (for_each_send (map_to_list unsent).*1 (Some (req_user req)) w)
    as (Hl & Hf & _ & _ & Hj).
  destruct (for_each _ _ w) as [[] w1]. simpl in *.
  assert (∀ k, queued_mails w1 !! k =
               match unsent !! k with
               | Some m => Some (with_sent (Some (now w)) m)
               | None => queued_mails w !! k
               end) as Hrows.
  { intros k. rewrite Hl. destruct (unsent !! k) as [m|] eqn:E.
    - rewrite decide_True by (apply elem_of_keys; by eexists).
      unfold unsent in E. rewrite unsent_of_event_lookup in E.
      destruct (queued_mails w !! k) as [m'|]; [|done].
      case_decide; by simplify_eq.
    - rewrite decide_False; [done|].
      rewrite elem_of_keys, E. by intros [? ?]. }
  split_and!; [done|exact Hrows| | | |].
  - rewrite Hj. apply appended_app.
  - apply NoDup_fst_map_to_list.
  - rewrite Hf. by rewrite length_fmap, length_map_to_list.
  - apply map_empty. intros k. rewrite unsent_of_event_lookup, Hrows.
    destruct (unsent !! k) as [m|] eqn:E.
    + rewrite decide_False; [done|]. simpl. by intros [_ ?].
    + unfold unsent in E. by rewrite unsent_of_event_lookup in E.
Qed.

Lemma bulk_send_empties_outbox_witness :
  let req := Sample.request POST None in
  let r := OutboxSend.dispatch req Sample.world in
  method req = POST ∧ kwargs_pk req = None
  ∧ "orga.send_mails" ∈ perms req
  ∧ appended (journal Sample.world) (journal (world_of r))
    = [Send 1 (Some 9)]
  ∧ OutboxSend.queryset req (world_of r) = ∅.
Proof.
  intros req r.
  assert ("orga.send_mails" ∈ perms req) as Hperm.
  { apply (bool_decide_unpack _). vm_compute. exact I. }
  destruct (bulk_send_empties_outbox req Sample.world eq_refl eq_refl Hperm)
    as (_ & _ & Hj & _ & _ & He).
  split; [reflexivity|]. split; [reflexivity|]. split; [exact Hperm|].
  split; [|exact He]. etrans; [exact Hj|]. vm_compute. reflexivity.
Defined.

(** ** The confirmation page *)

Lemma filter_key_lookup (qs : gmap Z QueuedMail) (pk : Z) :
  filter (λ kv : Z * QueuedMail, kv.1 = pk) qs =
  match qs !! pk with
  | Some m => {[ pk := m ]}
  | None => ∅
  end.
Proof.
  apply map_eq. intros k. rewrite map_lookup_filter.
  destruct (decide (k = pk)) as [->|Hne].
  - destruct (qs !! pk) as [m|] eqn:E; simpl.
    + rewrite option_guard_True by done. by rewrite lookup_singleton_eq.
    + by rewrite lookup_empty.
  - destruct (qs !! k) as [m'|] eqn:E; simpl.
    + rewrite option_guard_False by done.
      destruct (qs !! pk); by simplify_map_eq.
    + destruct (qs !! pk); by simplify_map_eq.
Qed.

(** X2.  The count that the confirmation page of send and of purge asks
    about: without [pk] it is the number of unsent mails of the event, and
    it is the count that a permitted POST in the same state then reports;
    with a [pk] it is 1 when [pk] is an unsent mail of the event and 0
    otherwise, so 0 for a mail that is already sent. *)
Theorem question_counts (req : Request) (w : World) :
  let unsent := sent__isnull (event_queued_mails (req_event req) w) in
  (OutboxPurge.question req w).2 = (OutboxSend.question req w).2
  ∧ (OutboxSend.question req w).2 =
      match kwargs_pk req with
      | None => size unsent
      | Some pk => if unsent !! pk is Some _ then 1%nat else 0%nat
      end
  ∧ (kwargs_pk req = None → method req = POST →
     "orga.send_mails" ∈ perms req →
     ∃ m, flash (world_of (OutboxSend.dispatch req w)) = flash w ++ [m]
          ∧ count m = Some (OutboxSend.question req w).2)
  ∧ (kwargs_pk req = None → method req = POST →
     "orga.purge_mails" ∈ perms req →
     ∃ m, flash (world_of (OutboxPurge.dispatch req w)) = flash w ++ [m]
          ∧ count m = Some (OutboxPurge.question req w).2).
Proof.
  intros unsent. split_and!.
  - done.
  - unfold OutboxSend.question, OutboxSend.queryset. simpl. fold unsent.
    destruct (kwargs_pk req) as [pk|]; [|done].
    rewrite filter_key_lookup. destruct (unsent !! pk).
    + apply map_size_singleton.
    + apply map_size_empty.
  - intros Hpk Hmethod Hperm.
    unfold OutboxSend.dispatch, PermissionRequired_dispatch, View_dispatch,
      OutboxSend.post, OutboxSend.question, world_of.
    rewrite Hpk, Hmethod. rewrite decide_True by done. run.
    pose proof (for_each_send_flash (map_to_list (OutboxSend.queryset req w)).*1
                  (Some (req_user req)) w) as Hf.
    destruct (for_each _ _ w) as [[] w1]. simpl in *.
    eexists. rewrite Hf. done.
  - intros Hpk Hmethod Hperm.
    unfold OutboxPurge.dispatch, PermissionRequired_dispatch, View_dispatch,
      OutboxPurge.post, OutboxPurge.question, world_of.
    rewrite Hpk, Hmethod. rewrite decide_True by done. run.
    destruct (QuerySet_delete_spec (OutboxPurge.queryset req w) w)
      as (_ & Hf & _).
    destruct (QuerySet_delete _ w) as [[] w1]. simpl in *.
    eexists. rewrite Hf. done.
Qed.

(** ** Repeating a single-record action *)

(** X3.  Sending the same unsent mail twice in a row: the first request
    stamps the row, the second one changes nothing but for its error
    message. *)
Theorem second_send_is_refused (req : Request) (pk : Z) (mail : QueuedMail)
    (w : World) :
  kwargs_pk req = Some pk →
  event_queued_mails (req_event req) w !! pk = Some mail →
  sent mail = None →
  let w1 := world_of (OutboxSend.dispatch req w) in
  let w2 := world_of (OutboxSend.dispatch req w1) in
  queued_mails w1 !! pk = Some (with_sent (Some (now w)) mail)
  ∧ w2 = add_message {| level := ERROR;
                        msg := "This mail had been sent already.";
                        count := None |} w1.
Proof.
  intros Hpk Hmail Hsent w1 w2. subst w2 w1.
  unfold OutboxSend.dispatch, world_of. rewrite Hpk. run.
  rewrite Hmail. rewrite Hsent. unfold send. run.
  rewrite event_queued_mails_lookup in Hmail |- *. simpl.
  destruct (queued_mails w !! pk) as [m|] eqn:E; [|done].
  case_decide; [|done]. simplify_eq.
  rewrite lookup_alter_eq, E. simpl.
  rewrite decide_True by done. done.
Qed.

Lemma second_send_is_refused_witness :
  let req := Sample.request POST (Some 1) in
  let w1 := world_of (OutboxSend.dispatch req Sample.world) in
  kwargs_pk req = Some 1
  ∧ event_queued_mails (req_event req) Sample.world !! 1 = Some Sample.draft
  ∧ sent Sample.draft = None
  ∧ sent <$> queued_mails w1 !! 1 = Some (Some 100)
  ∧ level <$> flash (world_of (OutboxSend.dispatch req w1))
    = [SUCCESS; ERROR].
Proof.
  intros req w1.
  assert (event_queued_mails (req_event req) Sample.world !! 1
          = Some Sample.draft) as Hmail by (vm_compute; reflexivity).
  destruct (second_send_is_refused req 1 Sample.draft Sample.world eq_refl
              Hmail eq_refl) as [Hrow Hw2].
  split; [reflexivity|]. split; [exact Hmail|]. split; [reflexivity|].
  split.
  - fold w1 in Hrow. rewrite Hrow. reflexivity.
  - fold w1 in Hw2. rewrite Hw2. vm_compute. reflexivity.
Defined.

(** X4.  Purging the same unsent mail twice in a row: the first request
    deletes the row, the second one finds no such mail and changes nothing
    but for its error message. *)
Theorem second_purge_is_refused (req : Request) (pk : Z) (mail : QueuedMail)
    (w : World) :
  kwargs_pk req = Some pk →
  event_queued_mails (req_event req) w !! pk = Some mail →
  sent mail = None →
  let w1 := world_of (OutboxPurge.dispatch req w) in
  let w2 := world_of (OutboxPurge.dispatch req w1) in
  queued_mails w1 !! pk = None
  ∧ w2 = add_message
           {| level := ERROR;
              msg := "This mail either does not exist or cannot be discarded because it was sent already.";
              count := None |} w1.
Proof.
  intros Hpk Hmail Hsent w1 w2. subst w2 w1.
  unfold OutboxPurge.dispatch, world_of. rewrite Hpk. run.
  rewrite sent__isnull_lookup, Hmail. rewrite decide_True by done.
  rewrite Hsent. unfold QueuedMail_delete. run.
  rewrite sent__isnull_lookup, event_queued_mails_lookup. simpl.
  by rewrite lookup_delete_eq.
Qed.

Lemma second_purge_is_refused_witness :
  let req := Sample.request POST (Some 1) in
  let w1 := world_of (OutboxPurge.dispatch req Sample.world) in
  kwargs_pk req = Some 1
  ∧ event_queued_mails (req_event req) Sample.world !! 1 = Some Sample.draft
  ∧ sent Sample.draft = None
  ∧ queued_mails w1 !! 1 = None
  ∧ level <$> flash (world_of (OutboxPurge.dispatch req w1))
    = [SUCCESS; ERROR].
Proof.
  intros req w1.
  assert (event_queued_mails (req_event req) Sample.world !! 1
          = Some Sample.draft) as Hmail by (vm_compute; reflexivity).
  destruct (second_purge_is_refused req 1 Sample.draft Sample.world eq_refl
              Hmail eq_refl) as [Hrow Hw2].
  split; [reflexivity|]. split; [exact Hmail|]. split; [reflexivity|].
  split; [exact Hrow|].
  fold w1 in Hw2. rewrite Hw2. vm_compute. reflexivity.
Defined.

(** ** The permission object of a purge *)

(** X5.  [OutboxPurge.get_permission_object].  Without [pk] it is the
    event.  With a [pk] it is never the event: it is the mail when the
    single-record purge of the same request would delete it, and no object
    at all when that purge would answer with its error, that is when the
    event has no such mail or the mail is already sent. *)
Theorem purge_permission_object (req : Request) (w : World) :
  let r := OutboxPurge.dispatch req w in
  match kwargs_pk req with
  | None =>
      OutboxPurge.get_permission_object req w
      = OutboxPurge.an_event (req_event req)
  | Some pk =>
      match OutboxPurge.get_permission_object req w with
      | OutboxPurge.a_mail pk' mail =>
          pk' = pk ∧ queued_mails w !! pk = Some mail
          ∧ event mail = event_pk (req_event req) ∧ sent mail = None
          ∧ queued_mails (world_of r) = delete pk (queued_mails w)
      | OutboxPurge.no_object =>
          only_reports ERROR w (world_of r)
          ∧ ¬ (∃ mail, queued_mails w !! pk = Some mail
                       ∧ event mail = event_pk (req_event req)
                       ∧ sent mail = None)
      | OutboxPurge.an_event _ => False
      end
  end.
Proof.
  unfold OutboxPurge.get_permission_object, OutboxPurge.dispatch, world_of.
  destruct (kwargs_pk req) as [pk|]; [|done]. run.
  rewrite unsent_of_event_lookup.
  destruct (queued_mails w !! pk) as [m|] eqn:E.
  - destruct (decide (event m = event_pk (req_event req) ∧ sent m = None))
      as [[He Hs]|Hn].
    + rewrite Hs. by split_and!.
    + split; [eexists; split; [|reflexivity]; done|].
      intros (mail & [= <-] & ? & ?). by apply Hn.
  - split; [eexists; split; [|reflexivity]; done|].
    by intros (mail & ? & _).
Qed.

(** ** Events do not touch each other's rows *)

Lemma hoare_keep {A} (I : World → Prop) (c : M A) :
  (∀ w, I w → I (c w).2) → hoare I c (λ _, I).
Proof. intros H w Hw. by apply H. Qed.

Lemma hoare_View_dispatch (I : World → Prop) req get post put :
  (∀ c, get = Some c → hoare I c (λ _, I)) →
  (∀ c, post = Some c → hoare I c (λ _, I)) →
  (∀ c, put = Some c → hoare I c (λ _, I)) →
  hoare I (View_dispatch req get post put) (λ _, I).
Proof.
  intros Hget Hpost Hput. unfold View_dispatch.
  destruct (method req), get, post, put; simpl;
    first [by apply hoare_ret | by apply Hget | by apply Hpost
          | by apply Hput].
Qed.

Lemma hoare_PermissionRequired (I : World → Prop) perm req c :
  hoare I c (λ _, I) →
  hoare I (PermissionRequired_dispatch perm req c) (λ _, I).
Proof.
  intros Hc. unfold PermissionRequired_dispatch.
  case_decide; [done|by apply hoare_ret].
Qed.

Lemma hoare_PermissionRequired_object {A} (I : World → Prop) perm
    (get_object : World → option A) req c :
  hoare I c (λ _, I) →
  hoare I (PermissionRequired_dispatch_object perm get_object req c)
    (λ _, I).
Proof.
  intros Hc. unfold PermissionRequired_dispatch_object.
  apply hoare_read. intros w0 _.
  destruct (get_object w0); [|by apply hoare_ret].
  by apply hoare_PermissionRequired.
Qed.

(** One step of a proof that a handler keeps the row [still_there]. *)
Ltac there_step :=
  lazymatch goal with
  | |- hoare ?P (mret _) _ =>
      first [by apply hoare_ret | by apply (hoare_ret P (λ _, P))]
  | |- hoare _ (render _) _ => by apply hoare_ret
  | |- hoare _ (messages_error _) _ => apply messages_error_still_there
  | |- hoare _ (messages_success _ _) _ =>
      apply messages_success_still_there
  | |- hoare _ (log_action _ _ _ _) _ => apply log_action_still_there
  | |- hoare _ (send _ _) _ => apply send_still_there
  | |- hoare _ (QueuedMail_delete _) _ => apply delete_still_there
  | |- hoare _ (to_users_add _ _) _ => apply to_users_add_still_there
  | |- hoare _ (QueuedMail_create _) _ => apply create_still_there
  | |- hoare _ (get_world ≫= _) _ => apply hoare_read; intros ? ?
  | |- hoare _ (_ ≫= _) _ => eapply hoare_bind; [|intros ?; simpl]
  | |- hoare _ (PermissionRequired_dispatch _ _ _) _ =>
      apply hoare_PermissionRequired
  | |- hoare _ (PermissionRequired_dispatch_object _ _ _ _) _ =>
      apply hoare_PermissionRequired_object
  end.

Section other_event.
(** A mail that is not of the event of the request. *)
Variables (pk : Z) (mail : QueuedMail) (req : Request).
Hypothesis elsewhere : event mail ≠ event_pk (req_event req).

Lemma own_mail_other w pk' m' :
  still_there pk mail w →
  event_queued_mails (req_event req) w !! pk' = Some m' →
  pk' ≠ pk.
Proof.
  unfold still_there. intros Hw Hm ->.
  rewrite event_queued_mails_lookup, Hw in Hm. case_decide; simplify_eq;
    done.
Qed.

Lemma own_keys_other w pk' :
  still_there pk mail w →
  pk' ∈ (map_to_list
           (sent__isnull (event_queued_mails (req_event req) w))).*1 →
  pk' ≠ pk.
Proof.
  intros Hw [m Hm]%elem_of_keys. rewrite sent__isnull_lookup in Hm.
  destruct (event_queued_mails (req_event req) w !! pk') as [m'|] eqn:E;
    [|done].
  by eapply own_mail_other.
Qed.

Lemma OutboxSend_keeps_elsewhere :
  hoare (still_there pk mail) (OutboxSend.dispatch req)
    (λ _, still_there pk mail).
Proof.
  unfold OutboxSend.dispatch.
  destruct (kwargs_pk req) as [pk'|] eqn:Hk.
  - there_step.
    destruct (event_queued_mails (req_event req) w0 !! pk') as [m'|] eqn:E;
      [destruct (sent m') eqn:Es|]; repeat there_step.
    by eapply own_mail_other.
  - there_step. apply hoare_View_dispatch; intros c [= <-].
    + there_step.
    + unfold OutboxSend.post, OutboxSend.queryset. rewrite Hk.
      repeat there_step.
      apply hoare_for_each. intros x Hx. there_step.
      by eapply own_keys_other.
Qed.

Lemma OutboxPurge_keeps_elsewhere :
  hoare (still_there pk mail) (OutboxPurge.dispatch req)
    (λ _, still_there pk mail).
Proof.
  unfold OutboxPurge.dispatch.
  destruct (kwargs_pk req) as [pk'|] eqn:Hk.
  - there_step. rewrite sent__isnull_lookup.
    destruct (event_queued_mails (req_event req) w0 !! pk') as [m'|] eqn:E;
      [case_decide; [destruct (sent m') eqn:Es|]|]; repeat there_step.
    by eapply own_mail_other.
  - there_step. apply hoare_View_dispatch; intros c [= <-].
    + there_step.
    + unfold OutboxPurge.post, OutboxPurge.queryset, QuerySet_delete.
      rewrite Hk. repeat there_step.
      apply hoare_for_each. intros x Hx. there_step.
      by eapply own_keys_other.
Qed.

Lemma MailDetail_keeps_elsewhere form :
  hoare (still_there pk mail) (MailDetail.dispatch req form)
    (λ _, still_there pk mail).
Proof.
  unfold MailDetail.dispatch. there_step.
  assert (hoare (still_there pk mail) (MailDetail.post req form)
            (λ _, still_there pk mail)) as Hpost.
  { unfold MailDetail.post, ProcessFormView_post. there_step.
    destruct (md_is_valid form); [|there_step].
    apply MailDetail_form_valid_still_there.
    intros pk' m' Hobj Hs. unfold MailDetail.get_object in Hobj.
    destruct (kwargs_pk req) as [k|]; [|done]. simpl in Hobj.
    destruct (event_queued_mails (req_event req) w0 !! k) as [m''|] eqn:E;
      [|done].
    simpl in Hobj. simplify_eq. by eapply own_mail_other. }
  apply hoare_View_dispatch; intros c [= <-]; [there_step|done|done].
Qed.

Lemma handle_keeps_elsewhere route :
  hoare (still_there pk mail) (handle route req) (λ _, still_there pk mail).
Proof.
  destruct route; simpl.
  - apply OutboxList_still_there.
  - apply SentMail_still_there.
  - apply OutboxSend_keeps_elsewhere.
  - apply OutboxPurge_keeps_elsewhere.
  - apply MailDetail_keeps_elsewhere.
  - apply MailCopy_still_there.
  - apply ComposeMail_still_there.
  - apply TemplateList_still_there.
  - apply TemplateDetail_still_there.
  - apply TemplateDelete_still_there.
Qed.
End other_event.

(** X6.  Whatever the route and the request, the handler leaves every
    queued mail of another event than the request's as it was, under the
    same key. *)
Theorem other_events_mails_untouched (route : Route) (req : Request)
    (w : World) (pk : Z) (mail : QueuedMail) :
  queued_mails w !! pk = Some mail →
  event mail ≠ event_pk (req_event req) →
  queued_mails (world_of (handle route req w)) !! pk = Some mail.
Proof.
  intros Hmail Hevent.
  by apply (handle_keeps_elsewhere pk mail req Hevent route w).
Qed.

Lemma other_events_mails_untouched_witness :
  queued_mails Sample.world !! 3 = Some Sample.elsewhere
  ∧ event Sample.elsewhere ≠ event_pk (req_event (Sample.request POST None))
  ∧ queued_mails
      (world_of (handle outbox_purge (Sample.request POST None) Sample.world))
      !! 3 = Some Sample.elsewhere.
Proof.
  assert (queued_mails Sample.world !! 3 = Some Sample.elsewhere) as Hmail
    by (vm_compute; reflexivity).
  assert (event Sample.elsewhere
          ≠ event_pk (req_event (Sample.request POST None))) as Hevent
    by discriminate.
  split; [exact Hmail|]. split; [exact Hevent|].
  exact (other_events_mails_untouched outbox_purge (Sample.request POST None)
           Sample.world 3 Sample.elsewhere Hmail Hevent).
Defined.

(** One step of a proof that a handler keeps an invariant that its
    primitive operations keep by computation. *)
Ltac frame_step :=
  lazymatch goal with
  | |- hoare ?P (mret _) _ =>
      first [by apply hoare_ret | by apply (hoare_ret P (λ _, P))]
  | |- hoare _ (render _) _ => by apply hoare_ret
  | |- hoare _ (get_world ≫= _) _ => apply hoare_read; intros ? ?
  | |- hoare _ (_ ≫= _) _ => eapply hoare_bind; [|intros ?; simpl]
  | |- hoare _ (PermissionRequired_dispatch _ _ _) _ =>
      apply hoare_PermissionRequired
  | |- hoare _ (PermissionRequired_dispatch_object _ _ _ _) _ =>
      apply hoare_PermissionRequired_object
  | |- hoare _ (for_each _ _) _ => apply hoare_for_each; intros ? ?
  | |- hoare ?P (log_action ?obj _ _ _) _ =>
      unfold log_action; destruct (ref_pk obj);
      [apply hoare_keep; intros ? ?; simpl; done
      |by apply (hoare_ret P (λ _, P))]
  | |- hoare _ _ _ => apply hoare_keep; intros ? ?; simpl; done
  end.

Section templates_frame.
(** A property of the table of templates alone. *)
Variable J : gmap Z MailTemplate → Prop.

Definition templates_keep (w : World) : Prop := J (mail_templates w).

Lemma add_additional_templates req form emails user_set :
  hoare templates_keep
    (ComposeMail.add_additional req form emails user_set)
    (λ _, templates_keep).
Proof.
  revert user_set. induction emails as [|email emails IH]; intros user_set;
    simpl.
  - frame_step.
  - frame_step. frame_step; [|apply IH].
    destruct (first_user_by_email email w0); repeat frame_step.
Qed.

Lemma mail_routes_templates route req :
  match route with
  | template_detail _ | template_delete => False
  | _ => True
  end →
  hoare templates_keep (handle route req) (λ _, templates_keep).
Proof.
  intros Hroute. destruct route; try done; simpl.
  - unfold OutboxList.dispatch. frame_step.
    apply hoare_View_dispatch; intros c [= <-]. frame_step.
  - unfold SentMail.dispatch. frame_step.
    apply hoare_View_dispatch; intros c [= <-]. frame_step.
  - unfold OutboxSend.dispatch.
    destruct (kwargs_pk req) as [pk'|] eqn:Hk.
    + frame_step.
      destruct (event_queued_mails (req_event req) w0 !! pk') as [m'|];
        [destruct (sent m')|]; repeat frame_step.
    + frame_step. apply hoare_View_dispatch; intros c [= <-];
        [frame_step|]. unfold OutboxSend.post. repeat frame_step.
  - unfold OutboxPurge.dispatch.
    destruct (kwargs_pk req) as [pk'|] eqn:Hk.
    + frame_step.
      destruct (sent__isnull (event_queued_mails (req_event req) w0) !! pk')
        as [m'|]; [destruct (sent m')|]; repeat frame_step.
    + frame_step. apply hoare_View_dispatch; intros c [= <-];
        [frame_step|]. unfold OutboxPurge.post, QuerySet_delete.
      repeat frame_step.
  - unfold MailDetail.dispatch. frame_step.
    assert (hoare templates_keep (MailDetail.post req form)
              (λ _, templates_keep)) as Hpost.
    { unfold MailDetail.post, ProcessFormView_post. frame_step.
      destruct (md_is_valid form); [|frame_step].
      unfold MailDetail.form_valid.
      destruct (sent (MailDetail.form_instance req form
                        (MailDetail.get_object req w0)).2);
        [repeat frame_step|].
      eapply hoare_bind with (Q := λ _, templates_keep).
      { unfold MailDetail.form_save.
        destruct (MailDetail.form_instance req form
                    (MailDetail.get_object req w0)) as [[ipk|] irow];
          simpl; repeat frame_step. }
      intros [[spk|] srow]; simpl;
        destruct (md_has_changed form); repeat case_decide;
        repeat frame_step. }
    apply hoare_View_dispatch; intros c [= <-]; [frame_step|done|done].
  - unfold MailCopy.dispatch, copy_to_draft. frame_step.
    destruct (MailCopy.get_object req w0); repeat frame_step.
  - unfold ComposeMail.dispatch. frame_step.
    assert (∀ c, hoare templates_keep c (λ _, templates_keep) →
                 hoare templates_keep (ComposeMail.with_form req c)
                   (λ _, templates_keep)) as Hform.
    { intros c Hc. unfold ComposeMail.with_form. frame_step.
      destruct (ComposeMail.get_form_kwargs req ∅ w0); [frame_step|done]. }
    assert (hoare templates_keep (ComposeMail.post req form)
              (λ _, templates_keep)) as Hpost.
    { apply Hform. unfold ProcessFormView_post.
      destruct (wm_is_valid form); [|frame_step].
      unfold ComposeMail.form_valid. frame_step.
      frame_step; [apply add_additional_templates|]. repeat frame_step. }
    apply hoare_View_dispatch; intros c [= <-];
      [apply Hform; frame_step|done|done].
  - unfold TemplateList.dispatch. frame_step.
    apply hoare_View_dispatch; intros c [= <-]. frame_step.
Qed.
End templates_frame.

Section other_events_template.
(** A template that is not of the event of the request. *)
Variables (pk : Z) (template : MailTemplate) (req : Request).
Hypothesis elsewhere : tpl_event template ≠ event_pk (req_event req).

Definition template_there (w : World) : Prop :=
  mail_templates w !! pk = Some template.

Lemma own_template_other w pk' t' :
  template_there w →
  event_mail_templates (req_event req) w !! pk' = Some t' →
  pk' ≠ pk.
Proof.
  unfold template_there, event_mail_templates. intros Hw Hm ->.
  apply map_lookup_filter_Some in Hm as [Hm He]. simpl in He.
  rewrite Hw in Hm. by simplify_eq.
Qed.

Lemma template_routes_keep_elsewhere route :
  hoare template_there (handle route req) (λ _, template_there).
Proof.
  destruct route;
    try (by apply (mail_routes_templates (λ t, t !! pk = Some template)));
    simpl.
  - unfold TemplateDetail.dispatch. frame_step.
    assert (hoare template_there (TemplateDetail.post req form)
              (λ _, template_there)) as Hpost.
    { unfold TemplateDetail.post, ProcessFormView_post. frame_step.
      destruct (tf_is_valid form); [|frame_step].
      unfold TemplateDetail.form_valid.
      frame_step; [destruct (tf_has_changed form); frame_step|].
      frame_step; [frame_step|]. frame_step; [|frame_step].
      apply hoare_keep. intros w Hw.
      unfold TemplateDetail.form_save, TemplateDetail.form_instance,
        TemplateDetail.get_object, template_there in *. simpl.
      rewrite lookup_insert_ne; [done|].
      destruct (kwargs_pk req) as [k|]; simpl.
      - destruct (event_mail_templates (req_event req) w0 !! k) as [t'|]
          eqn:E; simpl.
        + exact (own_template_other w0 k t' H E).
        + intros Heq. pose proof (fresh_pk_fresh (mail_templates w)) as Hf.
          rewrite Heq in Hf. congruence.
      - intros Heq. pose proof (fresh_pk_fresh (mail_templates w)) as Hf.
        rewrite Heq in Hf. congruence. }
    apply hoare_View_dispatch; intros c [= <-]; [frame_step|done|done].
  - unfold TemplateDelete.dispatch. frame_step.
    { frame_step. apply hoare_View_dispatch; by intros c [=]. }
    assert (hoare template_there
              (w ← get_world;
               match TemplateDelete.get_object req w with
               | None => mret Http404
               | Some (pk0, _) =>
                   log_action (TemplateRef (Some pk0))
                     "pretalx.mail_template.delete" (req_user req) true;;
                   MailTemplate_delete pk0;;
                   messages_success "The template has been deleted." None;;
                   mret (Redirect
                           (mail_templates_url (event_pk (req_event req))))
               end)
              (λ _, template_there)) as Hbody.
    { frame_step.
      destruct (TemplateDelete.get_object req w0) as [[k t]|] eqn:E;
        [|frame_step].
      assert (k ≠ pk) as Hne.
      { unfold TemplateDelete.get_object in E.
        destruct (kwargs_pk req) as [k'|]; [|done]. simpl in E.
        destruct (event_mail_templates (req_event req) w0 !! k') as [t'|]
          eqn:E'; [|done].
        simpl in E. simplify_eq. by eapply own_template_other. }
      frame_step; [frame_step|].
      eapply hoare_bind with (Q := λ _, template_there);
        [|intros ?; repeat frame_step].
      apply hoare_keep. intros w Hw.
      unfold MailTemplate_delete, template_there in *. simpl.
      by rewrite lookup_delete_ne. }
    destruct a; first [exact Hbody | frame_step].
Qed.
End other_events_template.

(** X7.  Whatever the route and the request, the handler leaves every mail
    template of another event than the request's as it was, under the same
    key: template save and template delete reach the templates of the
    request's event only. *)
Theorem other_events_templates_untouched (route : Route) (req : Request)
    (w : World) (pk : Z) (template : MailTemplate) :
  mail_templates w !! pk = Some template →
  tpl_event template ≠ event_pk (req_event req) →
  mail_templates (world_of (handle route req w)) !! pk = Some template.
Proof.
  intros Htemplate Hevent.
  by apply (template_routes_keep_elsewhere pk template req Hevent route w).
Qed.

Lemma other_events_templates_untouched_witness :
  let req := Sample.request POST (Some 5) in
  mail_templates Sample.world !! 5 = Some Sample.foreign_template
  ∧ tpl_event Sample.foreign_template ≠ event_pk (req_event req)
  ∧ response_of (handle template_delete req Sample.world) = Http404
  ∧ mail_templates (world_of (handle template_delete req Sample.world)) !! 5
    = Some Sample.foreign_template.
Proof.
  intros req.
  assert (mail_templates Sample.world !! 5 = Some Sample.foreign_template)
    as Htemplate by (vm_compute; reflexivity).
  assert (tpl_event Sample.foreign_template ≠ event_pk (req_event req))
    as Hevent by discriminate.
  split; [exact Htemplate|]. split; [exact Hevent|].
  split; [vm_compute; reflexivity|].
  exact (other_events_templates_untouched template_delete req Sample.world 5
           Sample.foreign_template Htemplate Hevent).
Defined.

Definition is_template_route (route : Route) : bool :=
  match route with
  | template_detail _ | template_delete => true
  | _ => false
  end.

Definition is_mail_action (route : Route) : bool :=
  match route with
  | outbox_send | outbox_purge | mail_detail _ | mail_copy
  | compose_mail _ => true
  | _ => false
  end.

Lemma other_routes_mails route req (Q : gmap Z QueuedMail) :
  is_mail_action route = false →
  hoare (λ w, queued_mails w = Q) (handle route req)
    (λ _ w, queued_mails w = Q).
Proof.
  intros Hroute. destruct route; try done; simpl.
  - unfold OutboxList.dispatch. frame_step.
    apply hoare_View_dispatch; intros c [= <-]. frame_step.
  - unfold SentMail.dispatch. frame_step.
    apply hoare_View_dispatch; intros c [= <-]. frame_step.
  - unfold TemplateList.dispatch. frame_step.
    apply hoare_View_dispatch; intros c [= <-]. frame_step.
  - unfold TemplateDetail.dispatch. frame_step.
    assert (hoare (λ w, queued_mails w = Q) (TemplateDetail.post req form)
              (λ _ w, queued_mails w = Q)) as Hpost.
    { unfold TemplateDetail.post, ProcessFormView_post. frame_step.
      destruct (tf_is_valid form); [|frame_step].
      unfold TemplateDetail.form_valid.
      destruct (tf_has_changed form); repeat frame_step. }
    apply hoare_View_dispatch; intros c [= <-]; [frame_step|done|done].
  - unfold TemplateDelete.dispatch. frame_step.
    { frame_step. apply hoare_View_dispatch; by intros c [=]. }
    destruct a; repeat frame_step;
      destruct (TemplateDelete.get_object req w0) as [[k t]|];
      repeat frame_step.
Qed.

(** X8.  The mail actions and the template actions keep to their own
    table: send, purge, mail detail, copy and compose leave the table of
    templates as it was, template save and template delete leave the table
    of queued mails as it was, and the three list views change neither. *)
Theorem mail_and_template_tables_are_separate (route : Route)
    (req : Request) (w : World) :
  let w' := world_of (handle route req w) in
  (is_template_route route = false → mail_templates w' = mail_templates w)
  ∧ (is_mail_action route = false → queued_mails w' = queued_mails w).
Proof.
  split.
  - intros Hroute.
    apply (mail_routes_templates (λ t, t = mail_templates w) route req);
      [by destruct route|done].
  - intros Hroute.
    by apply (other_routes_mails route req (queued_mails w) Hroute w).
Qed.

(** ** Mail detail: what a save does *)

(** X9.  A mail-detail submission, a permitted POST or PUT with a form that
    validates, on an unsent mail of the event.  No row but that of the mail
    changes, and the row stays a mail of the event.  The journal grows by
    the save, then by one audit-log entry if and only if the form's values
    changed, then, for the action [send] only, by a call of [send] without
    requestor, which stamps the row; for any other action the row stays
    unsent.  The actions [save] and [send] report success; any other action
    value reports nothing. *)
Theorem mail_detail_save (req : Request) (form : MailDetailForm) (pk : Z)
    (mail : QueuedMail) (w : World) :
  kwargs_pk req = Some pk →
  event_queued_mails (req_event req) w !! pk = Some mail →
  sent mail = None →
  submits req form →
  let r := MailDetail.dispatch req form w in
  let action := default "save" (md_data_form form) in
  response_of r = Redirect (outbox (event_pk (req_event req)))
  ∧ (∀ k, k ≠ pk → queued_mails (world_of r) !! k = queued_mails w !! k)
  ∧ (∃ row, queued_mails (world_of r) !! pk = Some row
            ∧ event row = event_pk (req_event req)
            ∧ sent row = if decide (action = "send") then Some (now w)
                         else None)
  ∧ appended (journal w) (journal (world_of r))
    = [Saved (MailRef (Some pk))]
      ++ (if md_has_changed form
          then [LogAction "pretalx.mail.update" (MailRef (Some pk))
                  (req_user req) true]
          else [])
      ++ (if decide (action = "send") then [Send pk None] else [])
  ∧ level <$> appended (flash w) (flash (world_of r))
    = if decide (action = "save" ∨ action = "send") then [SUCCESS] else [].
Proof.
  intros Hpk Hmail Hsent (Hm & Hperm & Hvalid).
  unfold MailDetail.dispatch, PermissionRequired_dispatch_object,
    PermissionRequired_dispatch, response_of, world_of. run.
  assert (MailDetail.get_object req w = Some (Some pk, mail)) as Hobj.
  { unfold MailDetail.get_object. rewrite Hpk. simpl. by rewrite Hmail. }
  rewrite Hobj, decide_True by done.
  assert (View_dispatch req (Some (render MailDetail.template_name))
            (Some (MailDetail.post req form))
            (Some (MailDetail.post req form))
          = MailDetail.post req form) as ->.
  { unfold View_dispatch. by destruct Hm as [-> | ->]. }
  unfold MailDetail.post, ProcessFormView_post. run.
  rewrite Hobj, Hvalid.
  unfold MailDetail.form_valid, MailDetail.form_instance,
    MailDetail.form_save, MailDetail.saved_row. simpl.
  rewrite Hsent. unfold send. run.
  destruct (md_has_changed form); repeat case_decide; simpl;
    try (by exfalso; intuition congruence);
    rewrite <- ?app_assoc; rewrite ?appended_app;
    split_and!; try done;
    try (by intros k Hk; rewrite ?lookup_alter_ne, lookup_insert_ne by done);
    try (eexists; rewrite ?lookup_alter_eq, lookup_insert_eq; simpl;
         by split_and!);
    try (unfold appended; by rewrite drop_all).
Qed.

Lemma mail_detail_save_witness :
  let req := Sample.request POST (Some 1) in
  let r := MailDetail.dispatch req Sample.detail_form Sample.world in
  kwargs_pk req = Some 1
  ∧ event_queued_mails (req_event req) Sample.world !! 1 = Some Sample.draft
  ∧ sent Sample.draft = None
  ∧ submits req Sample.detail_form
  ∧ response_of r = Redirect (outbox 1)
  ∧ appended (journal Sample.world) (journal (world_of r))
    = [Saved (MailRef (Some 1));
       LogAction "pretalx.mail.update" (MailRef (Some 1)) 9 true].
Proof.
  intros req r.
  assert (event_queued_mails (req_event req) Sample.world !! 1
          = Some Sample.draft) as Hmail by (vm_compute; reflexivity).
  assert (submits req Sample.detail_form) as Hsub.
  { apply (bool_decide_unpack _). vm_compute. exact I. }
  destruct (mail_detail_save req Sample.detail_form 1 Sample.draft
              Sample.world eq_refl Hmail eq_refl Hsub)
    as (Hr & _ & _ & Hj & _).
  split; [reflexivity|]. split; [exact Hmail|]. split; [reflexivity|].
  split; [exact Hsub|]. split; [exact Hr|exact Hj].
Defined.

(** ** Mail copy *)

(** X11.  Copying the mail that [pk] names, sent or not.  When the mail is
    not one of the request's event the answer is [Http404] and nothing
    changes.  Otherwise the table gets one more row under a key it did not
    have, equal to the source but for [sent], which is null; the source
    and every other row stay as they are; the journal grows by that
    creation only; and the redirect leads to the edit page of the copy. *)
Theorem mail_copy_outcomes (req : Request) (pk : Z) (mail : QueuedMail)
    (w : World) :
  kwargs_pk req = Some pk →
  queued_mails w !! pk = Some mail →
  let r := MailCopy.dispatch req w in
  let new := fresh_pk (queued_mails w) in
  (event mail ≠ event_pk (req_event req) → r = (Http404, w))
  ∧ (event mail = event_pk (req_event req) →
     response_of r = Redirect (mail_edit new)
     ∧ new ≠ pk
     ∧ queued_mails (world_of r)
       = <[new := with_sent None mail]> (queued_mails w)
     ∧ queued_mails (world_of r) !! pk = Some mail
     ∧ appended (journal w) (journal (world_of r))
       = [Created (MailRef (Some new))]
     ∧ level <$> appended (flash w) (flash (world_of r)) = [SUCCESS]).
Proof.
  intros Hpk Hmail r new. subst r.
  unfold MailCopy.dispatch, MailCopy.get_object, response_of, world_of.
  rewrite Hpk. run. rewrite event_queued_mails_lookup, Hmail.
  pose proof (fresh_pk_fresh (queued_mails w)) as Hfresh. fold new in Hfresh.
  assert (new ≠ pk) as Hne by (intros ->; congruence).
  case_decide; simpl; split; try done.
  intros _. unfold copy_to_draft, QueuedMail_create. simpl. fold new.
  split_and!; try done.
  - by rewrite lookup_insert_ne.
  - apply appended_app.
  - by rewrite appended_app.
Qed.

Lemma mail_copy_outcomes_witness :
  let req := Sample.request GET (Some 2) in
  let r := MailCopy.dispatch req Sample.world in
  kwargs_pk req = Some 2
  ∧ queued_mails Sample.world !! 2 = Some Sample.delivered
  ∧ response_of r = Redirect (mail_edit 4)
  ∧ queued_mails (world_of r) !! 4 = Some (with_sent None Sample.delivered)
  ∧ queued_mails (world_of r) !! 2 = Some Sample.delivered.
Proof.
  intros req r.
  assert (queued_mails Sample.world !! 2 = Some Sample.delivered) as Hmail
    by (vm_compute; reflexivity).
  destruct (mail_copy_outcomes req 2 Sample.delivered Sample.world eq_refl
              Hmail) as [_ H].
  destruct (H eq_refl) as (Hr & _ & Hrows & Hsrc & _).
  split; [reflexivity|]. split; [exact Hmail|]. split; [exact Hr|].
  split; [|exact Hsrc].
  fold r in Hrows. rewrite Hrows. apply lookup_insert_eq.
Defined.

(** ** Compose: the other prefill parameters *)

Definition with_GET (params : gmap string string) (req : Request) : Request :=
  {| method := method req; req_event := req_event req;
     req_user := req_user req; perms := perms req; req_GET := params;
     kwargs_pk := kwargs_pk req |}.



Lemma find_by_code (subs : list Submission) (c : string) :
  match List.find (λ s, bool_decide (code s = c)) subs with
  | Some s => code s = c ∧ c ∈ code <$> subs
  | None => c ∉ code <$> subs
  end.
Proof.
  induction subs as [|s l IH]; simpl.
  - apply not_elem_of_nil.
  - case_bool_decide as Hc.
    + split; [done|]. rewrite <- Hc. by left.
    + destruct (List.find _ l) as [s'|].
      * destruct IH as [? ?]. split; [done|]. by right.
      * intros [?|?]%elem_of_cons; done.
Qed.

(** The three steps of [get_form_kwargs], one per parameter. *)
Definition prefill_template (req : Request)
    (initial : gmap string (option string)) (w : World)
    : string + gmap string (option string) :=
  match req_GET req !! "template" with
  | Some param =>
      match Py.int param with
      | None => inl "ValueError"
      | Some pk =>
          if decide (key_in_range pk) then
            match MailTemplate_objects req w !! pk with
            | Some template =>
                inr (<["bcc" := tpl_bcc template]>
                     (<["reply_to" := tpl_reply_to template]>
                      (<["text" := tpl_text template]>
                       (<["subject" := tpl_subject template]> initial))))
            | None => inr initial
            end
          else inl "OverflowError"
      end
  | None => inr initial
  end.

Definition prefill_submission (req : Request)
    (initial : gmap string (option string)) (w : World)
    : gmap string (option string) :=
  match req_GET req !! "submission" with
  | Some param =>
      match List.find (λ s, bool_decide (code s = param))
              (event_submissions (req_event req) w) with
      | Some submission => <["submissions" := Some (code submission)]> initial
      | None => initial
      end
  | None => initial
  end.

Definition prefill_email (req : Request)
    (initial : gmap string (option string)) : gmap string (option string) :=
  match req_GET req !! "email" with
  | Some param => <["additional_recipients" := Some param]> initial
  | None => initial
  end.

Lemma get_form_kwargs_steps req initial w :
  ComposeMail.get_form_kwargs req initial w =
  match prefill_template req initial w with
  | inl e => inl e
  | inr step1 => inr (prefill_email req (prefill_submission req step1 w))
  end.
Proof. reflexivity. Qed.

Lemma prefill_template_frame req initial w step1 k :
  prefill_template req initial w = inr step1 →
  k ≠ "subject" → k ≠ "text" → k ≠ "reply_to" → k ≠ "bcc" →
  step1 !! k = initial !! k.
Proof.
  unfold prefill_template. intros Hstep ? ? ? ?.
  destruct (req_GET req !! "template") as [param|]; [|by simplify_eq].
  destruct (Py.int param) as [pk|]; [|done].
  case_decide; [|done].
  destruct (MailTemplate_objects req w !! pk); simplify_eq; [|done].
  by rewrite !lookup_insert_ne by done.
Qed.

Lemma prefill_submission_lookup req initial w k :
  prefill_submission req initial w !! k =
  match req_GET req !! "submission" with
  | Some c =>
      if decide (k = "submissions"
                 ∧ c ∈ code <$> event_submissions (req_event req) w)
      then Some (Some c) else initial !! k
  | None => initial !! k
  end.
Proof.
  unfold prefill_submission.
  destruct (req_GET req !! "submission") as [c|]; [|done].
  pose proof (find_by_code (event_submissions (req_event req) w) c) as Hf.
  destruct (List.find _ _) as [s|].
  - destruct Hf as [-> Hin]. destruct (decide (k = "submissions")) as [->|].
    + rewrite decide_True by done. apply lookup_insert_eq.
    + rewrite decide_False by tauto. by rewrite lookup_insert_ne.
  - rewrite decide_False; [done|]. by intros [_ ?].
Qed.

Lemma prefill_email_lookup req initial k :
  prefill_email req initial !! k =
  match req_GET req !! "email" with
  | Some e => if decide (k = "additional_recipients") then Some (Some e)
              else initial !! k
  | None => initial !! k
  end.
Proof.
  unfold prefill_email. destruct (req_GET req !! "email") as [e|]; [|done].
  case_decide as Hk; [subst; apply lookup_insert_eq|].
  by rewrite lookup_insert_ne.
Qed.

(** X13.  What [get_form_kwargs] writes when it returns.  The [submission]
    parameter is looked up among the submissions of the request's event
    only: [submissions] is set to the code when the event has a submission
    with that code and is left alone otherwise.  The [email] parameter is
    copied to [additional_recipients] as it is.  A key that no parameter
    stands for keeps its value, and so does every key when the query
    string is empty. *)
Theorem prefill_writes (req : Request)
    (initial initial' : gmap string (option string)) (w : World) :
  ComposeMail.get_form_kwargs req initial w = inr initial' →
  (∀ c, req_GET req !! "submission" = Some c →
     initial' !! "submissions"
     = if decide (c ∈ code <$> event_submissions (req_event req) w)
       then Some (Some c) else initial !! "submissions")
  ∧ (req_GET req !! "submission" = None →
     initial' !! "submissions" = initial !! "submissions")
  ∧ (∀ e, req_GET req !! "email" = Some e →
     initial' !! "additional_recipients" = Some (Some e))
  ∧ (req_GET req !! "email" = None →
     initial' !! "additional_recipients"
     = initial !! "additional_recipients")
  ∧ (∀ k, k ∉ ["subject"; "text"; "reply_to"; "bcc"; "submissions";
               "additional_recipients"] →
     initial' !! k = initial !! k)
  ∧ (req_GET req = ∅ → initial' = initial).
Proof.
  rewrite get_form_kwargs_steps. intros Hresult.
  destruct (prefill_template req initial w) as [e|step1] eqn:Hstep;
    [done|].
  injection Hresult as <-.
  pose proof (λ k, prefill_template_frame req initial w step1 k Hstep)
    as Hframe.
  split_and!.
  - intros c Hc. rewrite prefill_email_lookup, prefill_submission_lookup, Hc.
    rewrite <- (Hframe "submissions") by done.
    destruct (req_GET req !! "email");
      [rewrite decide_False by done|];
      destruct (decide (c ∈ _)); by
        first [rewrite decide_True by done|rewrite decide_False by tauto].
  - intros Hc. rewrite prefill_email_lookup, prefill_submission_lookup, Hc.
    rewrite <- (Hframe "submissions") by done.
    destruct (req_GET req !! "email"); [by rewrite decide_False|done].
  - intros e He. rewrite prefill_email_lookup, He. by rewrite decide_True.
  - intros He. rewrite prefill_email_lookup, prefill_submission_lookup, He.
    rewrite <- (Hframe "additional_recipients") by done.
    destruct (req_GET req !! "submission"); [|done].
    by rewrite decide_False by (by intros [? _]).
  - intros k Hk. rewrite !not_elem_of_cons in Hk.
    destruct Hk as (? & ? & ? & ? & ? & ? & _).
    rewrite prefill_email_lookup, prefill_submission_lookup.
    rewrite <- (Hframe k) by done.
    destruct (req_GET req !! "email"); [rewrite decide_False by done|];
      (destruct (req_GET req !! "submission"); [|done]);
      by rewrite decide_False by (by intros [? _]).
  - intros Hempty. unfold prefill_email, prefill_submission.
    unfold prefill_template in Hstep. rewrite Hempty in *.
    rewrite !lookup_empty in *. by simplify_eq.
Qed.

Lemma prefill_writes_witness :
  let req := with_GET {[ "submission" := "ABCDE"; "email" := " A@x.com" ]}
               Sample.prefill_request in
  ∃ initial',
    ComposeMail.get_form_kwargs req {[ "submissions" := Some "OLD" ]}
      Sample.world = inr initial'
    ∧ initial' !! "submissions" = Some (Some "OLD")
    ∧ initial' !! "additional_recipients" = Some (Some " A@x.com").
Proof.
  intros req.
  assert (∃ initial',
            ComposeMail.get_form_kwargs req {[ "submissions" := Some "OLD" ]}
              Sample.world = inr initial') as [initial' Hresult]
    by (eexists; vm_compute; reflexivity).
  destruct (prefill_writes req _ initial' Sample.world Hresult)
    as (Hsub & _ & Hemail & _).
  exists initial'. split; [exact Hresult|]. split.
  - etrans; [apply (Hsub "ABCDE"); vm_compute; reflexivity|].
    vm_compute. reflexivity.
  - apply (Hemail " A@x.com"). vm_compute. reflexivity.
Defined.

(** ** Compose: the normalized addresses *)

Fixpoint occurs (c : ascii) (s : string) : bool :=
  match s with
  | EmptyString => false
  | String c' s' => Ascii.eqb c c' || occurs c s'
  end.

Lemma string_app_cons (c : ascii) (s1 s2 : string) :
  String c s1 +:+ s2 = String c (s1 +:+ s2).
Proof. reflexivity. Qed.

Lemma string_app_empty_r (s : string) : s +:+ "" = s.
Proof.
  induction s as [|c s IH]; [done|]. by rewrite string_app_cons, IH.
Qed.

Lemma string_app_assoc (s1 s2 s3 : string) :
  (s1 +:+ s2) +:+ s3 = s1 +:+ (s2 +:+ s3).
Proof.
  induction s1 as [|c s1 IH]; [done|]. by rewrite !string_app_cons, IH.
Qed.

Lemma rev_app_append (s1 s2 : string) :
  String.rev_app s1 s2 = String.rev s1 +:+ s2.
Proof.
  revert s2. induction s1 as [|c s1 IH]; intros s2; [done|].
  unfold String.rev. simpl. rewrite (IH (String c s2)), (IH (String c "")).
  by rewrite string_app_assoc.
Qed.

Lemma rev_cons (c : ascii) (s : string) :
  String.rev (String c s) = String.rev s +:+ String c "".
Proof. unfold String.rev at 1. simpl. apply rev_app_append. Qed.

Lemma rev_snoc (c : ascii) (s : string) :
  String.rev (s +:+ String c "") = String c (String.rev s).
Proof.
  induction s as [|d s IH]; [done|].
  by rewrite string_app_cons, !rev_cons, IH.
Qed.

Lemma rev_involutive (s : string) : String.rev (String.rev s) = s.
Proof.
  induction s as [|c s IH]; [done|]. by rewrite rev_cons, rev_snoc, IH.
Qed.

Lemma lower_char_idemp (c : ascii) :
  Py.lower_char (Py.lower_char c) = Py.lower_char c.
Proof. by destruct c as [[] [] [] [] [] [] [] []]. Qed.

Lemma isspace_lower_char (c : ascii) :
  Py.isspace (Py.lower_char c) = Py.isspace c.
Proof. by destruct c as [[] [] [] [] [] [] [] []]. Qed.

Lemma lower_char_comma (c : ascii) :
  Ascii.eqb "," (Py.lower_char c) = Ascii.eqb "," c.
Proof. by destruct c as [[] [] [] [] [] [] [] []]. Qed.

Lemma lower_idemp (s : string) : Py.lower (Py.lower s) = Py.lower s.
Proof.
  induction s as [|c s IH]; [done|]. simpl.
  by rewrite lower_char_idemp, IH.
Qed.

Lemma lower_app (s1 s2 : string) :
  Py.lower (s1 +:+ s2) = Py.lower s1 +:+ Py.lower s2.
Proof.
  induction s1 as [|c s1 IH]; [done|].
  rewrite string_app_cons. simpl. by rewrite IH.
Qed.

Lemma lower_rev (s : string) :
  Py.lower (String.rev s) = String.rev (Py.lower s).
Proof.
  induction s as [|c s IH]; [done|]. simpl.
  by rewrite !rev_cons, lower_app, IH.
Qed.

Lemma lstrip_lower (s : string) :
  Py.lstrip (Py.lower s) = Py.lower (Py.lstrip s).
Proof.
  induction s as [|c s IH]; [done|]. simpl.
  rewrite isspace_lower_char. by destruct (Py.isspace c).
Qed.

Lemma strip_lower (s : string) :
  Py.strip (Py.lower s) = Py.lower (Py.strip s).
Proof.
  unfold Py.strip, Py.rstrip.
  by rewrite lstrip_lower, <- lower_rev, lstrip_lower, lower_rev.
Qed.

Lemma lstrip_idemp (s : string) : Py.lstrip (Py.lstrip s) = Py.lstrip s.
Proof.
  induction s as [|c s IH]; [done|]. simpl.
  destruct (Py.isspace c) eqn:E; [done|]. simpl. by rewrite E.
Qed.

Lemma rstrip_idemp (s : string) : Py.rstrip (Py.rstrip s) = Py.rstrip s.
Proof. unfold Py.rstrip. by rewrite rev_involutive, lstrip_idemp. Qed.

(** [rstrip], by recursion from the front. *)
Fixpoint rstrip_rec (s : string) : string :=
  match s with
  | EmptyString => EmptyString
  | String c s' =>
      match rstrip_rec s' with
      | EmptyString => if Py.isspace c then EmptyString else String c ""
      | r => String c r
      end
  end.

Lemma lstrip_snoc (s : string) (c : ascii) :
  Py.lstrip (s +:+ String c "") =
  match Py.lstrip s with
  | EmptyString => if Py.isspace c then EmptyString else String c ""
  | r => r +:+ String c ""
  end.
Proof.
  induction s as [|d s IH]; [done|].
  rewrite string_app_cons. simpl. by destruct (Py.isspace d).
Qed.

Lemma rstrip_rstrip_rec (s : string) : Py.rstrip s = rstrip_rec s.
Proof.
  unfold Py.rstrip. induction s as [|c s IH]; [done|].
  rewrite rev_cons, lstrip_snoc. simpl. rewrite <- IH.
  destruct (Py.lstrip (String.rev s)) as [|d r];
    [by destruct (Py.isspace c)|].
  rewrite rev_snoc. rewrite rev_cons. by destruct (String.rev r).
Qed.

(** The first character of a string, if any, is not whitespace. *)
Definition starts_clean (s : string) : Prop :=
  match s with
  | EmptyString => True
  | String c _ => Py.isspace c = false
  end.

Lemma starts_clean_lstrip (s : string) : starts_clean (Py.lstrip s).
Proof.
  induction s as [|c s IH]; [done|]. simpl.
  by destruct (Py.isspace c) eqn:E.
Qed.

Lemma lstrip_starts_clean (s : string) : starts_clean s → Py.lstrip s = s.
Proof. destruct s as [|c s]; [done|]. simpl. by intros ->. Qed.

Lemma rstrip_starts_clean (s : string) :
  starts_clean s → starts_clean (Py.rstrip s).
Proof.
  rewrite rstrip_rstrip_rec. destruct s as [|c s]; [done|]. simpl.
  intros Hc. rewrite Hc. by destruct (rstrip_rec s).
Qed.

Lemma strip_idemp (s : string) : Py.strip (Py.strip s) = Py.strip s.
Proof.
  unfold Py.strip.
  rewrite (lstrip_starts_clean (Py.rstrip (Py.lstrip s)))
    by apply rstrip_starts_clean, starts_clean_lstrip.
  apply rstrip_idemp.
Qed.

Lemma lower_empty (s : string) : Py.lower s = "" → s = "".
Proof. by destruct s. Qed.

Lemma occurs_app (c : ascii) (s1 s2 : string) :
  occurs c (s1 +:+ s2) = occurs c s1 || occurs c s2.
Proof.
  induction s1 as [|d s1 IH]; [done|].
  rewrite string_app_cons. simpl. rewrite IH. by rewrite orb_assoc.
Qed.

Lemma occurs_rev (c : ascii) (s : string) :
  occurs c (String.rev s) = occurs c s.
Proof.
  induction s as [|d s IH]; [done|].
  rewrite rev_cons, occurs_app, IH. simpl.
  rewrite orb_false_r. apply orb_comm.
Qed.

Lemma occurs_lstrip (c : ascii) (s : string) :
  occurs c s = false → occurs c (Py.lstrip s) = false.
Proof.
  induction s as [|d s IH]; [done|]. simpl.
  intros [? ?]%orb_false_elim. destruct (Py.isspace d); [auto|].
  simpl. by apply orb_false_intro.
Qed.

Lemma occurs_strip (c : ascii) (s : string) :
  occurs c s = false → occurs c (Py.strip s) = false.
Proof.
  intros Hs. unfold Py.strip, Py.rstrip.
  rewrite occurs_rev. apply occurs_lstrip. rewrite occurs_rev.
  by apply occurs_lstrip.
Qed.

Lemma occurs_comma_lower (s : string) :
  occurs "," (Py.lower s) = occurs "," s.
Proof.
  induction s as [|d s IH]; [done|]. cbn [Py.lower occurs].
  by rewrite lower_char_comma, IH.
Qed.

Lemma split_comma_pieces (s : string) :
  Forall (λ piece, occurs "," piece = false) (Py.split_comma s).
Proof.
  induction s as [|c s IH]; simpl.
  - by repeat constructor.
  - destruct (Ascii.eqb c ",") eqn:E.
    + by constructor.
    + destruct (Py.split_comma s) as [|piece rest].
      { constructor; [|constructor]. cbn [occurs].
        by rewrite Ascii.eqb_sym, E. }
      inversion IH as [|? ? Hpiece Hrest]; subst.
      constructor; [|done]. cbn [occurs]. rewrite Hpiece.
      rewrite Ascii.eqb_sym, E. done.
Qed.

(** X14.  Every address that compose works with, be it looked up as a user
    or queued as a standalone recipient, is in normal form: it is not
    empty, has no whitespace at either end, is lowercase, and contains no
    comma. *)
Theorem additional_mails_normal_form (form : WriteMailForm) (email : string) :
  email ∈ ComposeMail.additional_mails form →
  email ≠ ""
  ∧ Py.strip email = email
  ∧ Py.lower email = email
  ∧ occurs "," email = false.
Proof.
  unfold ComposeMail.additional_mails.
  intros (piece & -> & Hpiece)%list_elem_of_fmap.
  apply list_elem_of_filter in Hpiece as [Htruthy Hpiece].
  split_and!.
  - intros Hempty%lower_empty. by rewrite Hempty in Htruthy.
  - by rewrite strip_lower, strip_idemp.
  - apply lower_idemp.
  - rewrite occurs_comma_lower. apply occurs_strip.
    pose proof (split_comma_pieces
                  (default "" (cd_additional_recipients form))) as Hall.
    rewrite Forall_forall in Hall. by apply Hall.
Qed.

Lemma additional_mails_normal_form_witness :
  "a@x.com" ∈ ComposeMail.additional_mails Sample.compose_form
  ∧ Py.strip "a@x.com" = "a@x.com"
  ∧ Py.lower "a@x.com" = "a@x.com".
Proof.
  assert ("a@x.com" ∈ ComposeMail.additional_mails Sample.compose_form)
    as Hin by (apply (bool_decide_unpack _); vm_compute; exact I).
  destruct (additional_mails_normal_form Sample.compose_form "a@x.com" Hin)
    as (_ & Hstrip & Hlower & _).
  split; [exact Hin|]. split; [exact Hstrip|exact Hlower].
Defined.

(** ** Compose: resolving addresses and criteria *)

Lemma elem_of_users_with_submissions__in subs w user :
  user ∈ users_with_submissions__in subs w ↔
  (∃ u, u ∈ users w ∧ user_pk u = user)
  ∧ ∃ s, s ∈ subs ∧ user ∈ speakers s.
Proof.
  unfold users_with_submissions__in.
  rewrite list_elem_of_In, in_flat_map. split.
  - intros (u & Hu & Hin). apply in_flat_map in Hin as (s & Hs & Hin).
    case_decide; [|done]. destruct Hin as [<-|[]].
    apply list_elem_of_In in Hu, Hs. split; [by exists u|by exists s].
  - intros [(u & Hu & <-) (s & Hs & Hin)].
    exists u. split; [by apply list_elem_of_In|].
    apply in_flat_map. exists s. split; [by apply list_elem_of_In|].
    rewrite decide_True by done. by left.
Qed.

Lemma elem_of_users_with_teams__in_distinct ts w user :
  user ∈ users_with_teams__in_distinct ts w ↔
  (∃ u, u ∈ users w ∧ user_pk u = user)
  ∧ ∃ t, t ∈ ts ∧ user ∈ members t.
Proof.
  unfold users_with_teams__in_distinct.
  rewrite elem_of_remove_dups, list_elem_of_In, in_flat_map. split.
  - intros (u & Hu & Hin). apply in_flat_map in Hin as (t & Ht & Hin).
    case_decide; [|done]. destruct Hin as [<-|[]].
    apply list_elem_of_In in Hu, Ht. split; [by exists u|by exists t].
  - intros [(u & Hu & <-) (t & Ht & Hin)].
    exists u. split; [by apply list_elem_of_In|].
    apply in_flat_map. exists t. split; [by apply list_elem_of_In|].
    rewrite decide_True by done. by left.
Qed.

Lemma elem_of_foldl_union {A} (f : A → list Z) (l : list A) (X : gset Z)
    (x : Z) :
  x ∈ foldl (λ Y a, Y ∪ list_to_set (f a)) X l ↔
  x ∈ X ∨ ∃ a, a ∈ l ∧ x ∈ f a.
Proof.
  revert X. induction l as [|a l IH]; intros X; simpl.
  - split; [by left|]. intros [?|(a & ?%elem_of_nil & _)]; done.
  - rewrite IH, elem_of_union, elem_of_list_to_set. split.
    + intros [[?|?]|(b & ? & ?)]; [by left|right..].
      * exists a. split; [by left|done].
      * exists b. split; [by right|done].
    + intros [?|(b & [->|?]%elem_of_cons & ?)]; [by left; left|by left; right|].
      right. by exists b.
Qed.

(** A submission that the three list criteria of the form select. *)
Definition selected (form : WriteMailForm) (s : Submission) : Prop :=
  (∃ codes, cd_submissions form = Some codes ∧ code s ∈ codes)
  ∨ (∃ tracks t, cd_tracks form = Some tracks
                 ∧ track_id s = Some t ∧ t ∈ tracks)
  ∨ (∃ types, cd_submission_types form = Some types
              ∧ submission_type_id s ∈ types).

(** A submission that a recipient category other than [reviewers] names:
    [no_slides] is the confirmed submissions without resources, any other
    name is the submissions in the state of that name. *)
Definition in_category (recipient : string) (s : Submission) : Prop :=
  recipient ≠ "reviewers"
  ∧ if decide (recipient = "no_slides")
    then resources s = [] ∧ state s = "confirmed"
    else state s = recipient.

(** The users of one of the list criteria: none when the value is missing
    or empty. *)
Definition list_criterion {A} (value : option (list A))
    (resolve : list A → list Z) : gset Z :=
  match value with
  | Some ((_ :: _) as l) => list_to_set (resolve l)
  | _ => ∅
  end.

Lemma elem_of_list_criterion {A} (value : option (list A))
    (resolve : list A → list Z) (x : Z) :
  (∀ y, y ∉ resolve []) →
  x ∈ list_criterion value resolve ↔ ∃ l, value = Some l ∧ x ∈ resolve l.
Proof.
  intros Hnil. unfold list_criterion.
  destruct value as [[|a l]|].
  - split; [by intros ?%not_elem_of_empty|].
    intros (l & [= <-] & Hx). by apply Hnil in Hx.
  - rewrite elem_of_list_to_set. split; [by eexists|].
    by intros (l' & [= <-] & ?).
  - split; [by intros ?%not_elem_of_empty|]. by intros (l & ? & _).
Qed.

Lemma criteria_users_unfold (req : Request) (form : WriteMailForm)
    (w : World) :
  ComposeMail.criteria_users req form w =
  foldl (λ user_set recipient,
           user_set
           ∪ list_to_set (ComposeMail.recipient_users req recipient w))
    (list_criterion (cd_submissions form)
       (λ submissions,
          users_with_submissions__in
            (filter (λ s, code s ∈ submissions)
               (event_submissions (req_event req) w)) w)
     ∪ list_criterion (cd_tracks form)
         (λ tracks,
            users_with_submissions__in
              (filter (λ s, track_id s ∈ Some <$> tracks)
                 (event_submissions (req_event req) w)) w)
     ∪ list_criterion (cd_submission_types form)
         (λ submission_types,
            users_with_submissions__in
              (filter (λ s, submission_type_id s ∈ submission_types)
                 (event_submissions (req_event req) w)) w))
    (cd_recipients form).
Proof.
  unfold ComposeMail.criteria_users, list_criterion. f_equal.
  destruct (cd_submissions form) as [[|? ?]|],
    (cd_tracks form) as [[|? ?]|],
    (cd_submission_types form) as [[|? ?]|];
    by rewrite ?(left_id_L ∅ (∪)), ?(right_id_L ∅ (∪)).
Qed.

Lemma elem_of_event_query (req : Request) (w : World)
    (P : Submission → Prop) `{∀ s, Decision (P s)} (user : Z) :
  user ∈ users_with_submissions__in
           (filter P (event_submissions (req_event req) w)) w ↔
  (∃ u, u ∈ users w ∧ user_pk u = user)
  ∧ ∃ s, s ∈ submissions w ∧ sub_event s = event_pk (req_event req)
         ∧ user ∈ speakers s ∧ P s.
Proof.
  rewrite elem_of_users_with_submissions__in.
  apply and_iff_compat_l. unfold event_submissions. split.
  - intros (s & Hs & ?). apply list_elem_of_filter in Hs as [? Hs].
    apply list_elem_of_filter in Hs as [? Hs]. by exists s.
  - intros (s & ? & ? & ? & ?). exists s. split; [|done].
    by repeat (apply list_elem_of_filter; split).
Qed.

Lemma elem_of_recipient_users (req : Request) (w : World)
    (recipient : string) (user : Z) :
  user ∈ ComposeMail.recipient_users req recipient w ↔
  (∃ u, u ∈ users w ∧ user_pk u = user)
  ∧ if decide (recipient = "reviewers")
    then ∃ t, t ∈ teams w ∧ event_pk (req_event req) ∈ team_events t
              ∧ is_reviewer t = true ∧ user ∈ members t
    else ∃ s, s ∈ submissions w ∧ sub_event s = event_pk (req_event req)
              ∧ user ∈ speakers s ∧ in_category recipient s.
Proof.
  unfold ComposeMail.recipient_users, in_category.
  destruct (decide (recipient = "reviewers")) as [->|Hr].
  - rewrite elem_of_users_with_teams__in_distinct.
    apply and_iff_compat_l. unfold event_teams. split.
    + intros (t & Ht & ?). apply list_elem_of_filter in Ht as [? Ht].
      apply list_elem_of_filter in Ht as [? Ht]. by exists t.
    + intros (t & ? & ? & ? & ?). exists t. split; [|done].
      by repeat (apply list_elem_of_filter; split).
  - destruct (decide (recipient = "no_slides")) as [->|Hn];
      rewrite elem_of_event_query; apply and_iff_compat_l;
      split; intros (s & ? & ? & ? & ?); exists s; split_and!; try done;
      tauto.
Qed.

(** X16.  The users that the criteria of a compose form resolve to.  A key
    is in the set exactly when it is the key of a user of the table who
    is a speaker of a submission of the request's event that the
    submission, track or type lists select or that one of the recipient
    categories names, or, when [reviewers] is among the categories, who is
    a member of a reviewer team of the event.  In particular a confirmed
    submission with a resource is not in [no_slides], and submissions of
    other events never count. *)
Theorem criteria_users_spec (req : Request) (form : WriteMailForm)
    (w : World) (user : Z) :
  user ∈ ComposeMail.criteria_users req form w ↔
  (∃ u, u ∈ users w ∧ user_pk u = user)
  ∧ ((∃ s, s ∈ submissions w ∧ sub_event s = event_pk (req_event req)
           ∧ user ∈ speakers s
           ∧ (selected form s
              ∨ ∃ recipient, recipient ∈ cd_recipients form
                             ∧ in_category recipient s))
     ∨ ("reviewers" ∈ cd_recipients form
        ∧ ∃ t, t ∈ teams w ∧ event_pk (req_event req) ∈ team_events t
               ∧ is_reviewer t = true ∧ user ∈ members t)).
Proof.
  rewrite criteria_users_unfold, elem_of_foldl_union, !elem_of_union.
  assert (∀ P `{∀ s, Decision (P s)} y,
            y ∉ users_with_submissions__in
                  (filter P (event_submissions (req_event req) w)) w
            ∨ ∃ s, P s) as Hne.
  { intros P HP y.
    destruct (decide (y ∈ users_with_submissions__in
                            (filter P (event_submissions (req_event req) w))
                            w)) as [Hy|Hy]; [right|by left].
    apply elem_of_event_query in Hy as (_ & s & _ & _ & _ & ?).
    by exists s. }
  rewrite !elem_of_list_criterion.
  2:{ intros y. destruct (Hne (λ s, submission_type_id s ∈ []) _ y)
        as [?|[s ?%elem_of_nil]]; done. }
  2:{ intros y. destruct (Hne (λ s, track_id s ∈ Some <$> []) _ y)
        as [?|[s ?%elem_of_nil]]; done. }
  2:{ intros y. destruct (Hne (λ s, code s ∈ []) _ y)
        as [?|[s ?%elem_of_nil]]; done. }
  split.
  - intros [[[(l & Hl & Hin)|(l & Hl & Hin)]|(l & Hl & Hin)]
           |(recipient & Hr & Hin)].
    + apply elem_of_event_query in Hin as (Hu & s & ? & ? & ? & ?).
      split; [done|]. left. exists s. split_and!; try done.
      left. left. by exists l.
    + apply elem_of_event_query in Hin as (Hu & s & ? & ? & ? & Ht).
      split; [done|]. left. exists s. split_and!; try done.
      left. right. left.
      apply list_elem_of_fmap in Ht as (t & ? & ?). by exists l, t.
    + apply elem_of_event_query in Hin as (Hu & s & ? & ? & ? & ?).
      split; [done|]. left. exists s. split_and!; try done.
      left. right. right. by exists l.
    + apply elem_of_recipient_users in Hin as [Hu Hin].
      split; [done|]. destruct (decide (recipient = "reviewers")) as [->|].
      * by right.
      * destruct Hin as (s & ? & ? & ? & ?). left. exists s.
        split_and!; try done. right. by exists recipient.
  - intros [Hu [(s & ? & ? & ? & [[(l & ? & ?)|[(l & t & ? & ? & ?)
                                               |(l & ? & ?)]]
                                 |(recipient & ? & Hc)])
               |(Hr & t & ? & ? & ? & ?)]].
    + left. left. left. exists l. split; [done|].
      apply elem_of_event_query. split; [done|]. by exists s.
    + left. left. right. exists l. split; [done|].
      apply elem_of_event_query. split; [done|]. exists s.
      split_and!; try done. apply list_elem_of_fmap. by exists t.
    + left. right. exists l. split; [done|].
      apply elem_of_event_query. split; [done|]. by exists s.
    + right. exists recipient. split; [done|].
      apply elem_of_recipient_users. split; [done|].
      rewrite decide_False by apply Hc. by exists s.
    + right. exists "reviewers". split; [done|].
      apply elem_of_recipient_users. split; [done|].
      rewrite decide_True by done. by exists t.
Qed.

(** ** Compose: edge cases and what is written *)

(** X17.  A compose submission that selects nobody, with criteria that
    resolve to no user and additional recipients that hold no address
    (missing, empty, or commas and blanks only), is still answered as a
    success: nothing is queued or journalled, and the message reports 0. *)
Theorem compose_nobody (req : Request) (form : WriteMailForm) (w : World) :
  ComposeMail.criteria_users req form w = ∅ →
  ComposeMail.additional_mails form = [] →
  ComposeMail.form_valid req form w
  = (Redirect (compose_mails (event_pk (req_event req))),
     add_message
       {| level := SUCCESS;
          msg := "{count} emails have been saved to the outbox – you can make individual changes there or just send them all.";
          count := Some 0%nat |} w).
Proof.
  intros Hcriteria Hmails. rewrite ComposeMail_form_valid_eq.
  rewrite Hcriteria, Hmails. simpl. by rewrite elements_empty.
Qed.

Lemma compose_nobody_witness :
  let form :=
    {| wm_is_valid := true;
       cd_submissions := Some ["ABCDE"]; cd_tracks := None;
       cd_submission_types := Some []; cd_recipients := ["no_slides"];
       cd_additional_recipients := Some " , ,";
       cd_reply_to := None; cd_cc := None; cd_bcc := None;
       cd_subject := Some "Hello"; cd_text := Some "News." |} in
  ComposeMail.criteria_users (Sample.request POST None) form Sample.world = ∅
  ∧ ComposeMail.additional_mails form = []
  ∧ world_of (ComposeMail.form_valid (Sample.request POST None) form
                Sample.world)
    = add_message
        {| level := SUCCESS;
           msg := "{count} emails have been saved to the outbox – you can make individual changes there or just send them all.";
           count := Some 0%nat |} Sample.world.
Proof.
  intros form.
  assert (ComposeMail.criteria_users (Sample.request POST None) form
            Sample.world = ∅) as Hcriteria by (vm_compute; reflexivity).
  assert (ComposeMail.additional_mails form = []) as Hmails
    by (vm_compute; reflexivity).
  split; [exact Hcriteria|]. split; [exact Hmails|].
  by rewrite (compose_nobody (Sample.request POST None) form Sample.world
                Hcriteria Hmails).
Defined.

(** What compose appends to the journal: creations of mails and
    attachments of a recipient, nothing else. *)
Definition queueing (e : Effect) : Prop :=
  match e with
  | Created (MailRef _) | AddedToUsers _ _ => True
  | _ => False
  end.

Definition journal_grows_quietly (before : list Effect) (w : World) : Prop :=
  ∃ entries, journal w = before ++ entries ∧ Forall queueing entries.

Lemma create_quietly before row :
  hoare (journal_grows_quietly before) (QueuedMail_create row)
    (λ _, journal_grows_quietly before).
Proof.
  intros w (entries & Hj & Hq).
  exists (entries ++ [Created (MailRef (Some (fresh_pk (queued_mails w))))]).
  simpl. split; [by rewrite Hj, <- app_assoc|].
  apply Forall_app. split; [done|]. by repeat constructor.
Qed.

Lemma to_users_add_quietly before pk user :
  hoare (journal_grows_quietly before) (to_users_add pk user)
    (λ _, journal_grows_quietly before).
Proof.
  intros w (entries & Hj & Hq).
  exists (entries ++ [AddedToUsers pk user]).
  simpl. split; [by rewrite Hj, <- app_assoc|].
  apply Forall_app. split; [done|]. by repeat constructor.
Qed.

Lemma add_additional_quietly before req form emails user_set :
  hoare (journal_grows_quietly before)
    (ComposeMail.add_additional req form emails user_set)
    (λ _, journal_grows_quietly before).
Proof.
  revert user_set. induction emails as [|email emails IH]; intros user_set;
    simpl.
  - by apply hoare_ret.
  - apply hoare_read. intros w0 _.
    eapply hoare_bind with (Q := λ _, journal_grows_quietly before);
      [|intros ?; apply IH].
    destruct (first_user_by_email email w0).
    + by apply hoare_ret.
    + eapply hoare_bind; [apply create_quietly|].
      intros ?. by apply hoare_ret.
Qed.

(** X18.  What a valid compose submission writes.  Every row it adds is an
    unsent mail of the request's event that carries the form's subject,
    text, cc and bcc; and it appends to the journal creations of mails
    and attachments of recipients only: it sends nothing and writes no
    audit-log entry. *)
Theorem compose_only_queues (req : Request) (form : WriteMailForm)
    (w : World) :
  let w' := world_of (ComposeMail.form_valid req form w) in
  (∀ row, row ∈ created w w' →
     event row = event_pk (req_event req) ∧ sent row = None
     ∧ subject row = cd_subject form ∧ text_ row = cd_text form
     ∧ cc row = cd_cc form ∧ bcc row = cd_bcc form)
  ∧ ∃ entries, journal w' = journal w ++ entries ∧ Forall queueing entries.
Proof.
  split.
  - intros row Hrow.
    by apply created_rows_of_form_valid in Hrow as [[email ->]|[user ->]].
  - assert (hoare (journal_grows_quietly (journal w))
              (ComposeMail.form_valid req form)
              (λ _, journal_grows_quietly (journal w))) as H.
    { unfold ComposeMail.form_valid. apply hoare_read. intros w0 _.
      eapply hoare_bind; [apply add_additional_quietly|]. intros user_set.
      eapply hoare_bind with (Q := λ _, journal_grows_quietly (journal w)).
      - apply hoare_for_each. intros user _.
        eapply hoare_bind; [apply create_quietly|]. intros mail.
        apply to_users_add_quietly.
      - intros _. eapply hoare_bind with
          (Q := λ _, journal_grows_quietly (journal w)).
        + by apply hoare_keep.
        + intros _. by apply hoare_ret. }
    apply (H w). exists []. by rewrite app_nil_r.
Qed.

(** ** Templates *)

(** X19.  The [other] list of the template page holds exactly the
    templates of the event whose key is not the key of one of the four
    role templates; a role slot that is empty, or whose key is 0 (which
    Python takes for false), excludes nothing. *)
Theorem template_list_other (fixed : FixedTemplates) (req : Request)
    (w : World) (k : Z) (template : MailTemplate) :
  TemplateList.other fixed req w !! k = Some template ↔
  mail_templates w !! k = Some template
  ∧ tpl_event template = event_pk (req_event req)
  ∧ (Some k ∈ [accept_template fixed; ack_template fixed;
               reject_template fixed; update_template fixed] → k = 0).
Proof.
  unfold TemplateList.other, event_mail_templates.
  set (slots := [accept_template fixed; ack_template fixed;
                 reject_template fixed; update_template fixed]).
  assert (k ∈ filter (λ pk, pk ≠ 0) (omap id slots) ↔ k ≠ 0 ∧ Some k ∈ slots)
    as Hin.
  { rewrite list_elem_of_filter, list_elem_of_omap.
    apply and_iff_compat_l. split.
    - intros (slot & ? & Hslot). unfold id in Hslot. by subst slot.
    - intros ?. by exists (Some k). }
  rewrite !map_lookup_filter_Some. cbn [fst snd]. rewrite Hin.
  split.
  - intros [[? ?] Hk]. split_and!; [done|done|].
    intros ?. destruct (decide (k = 0)) as [|Hne]; [done|].
    exfalso. by apply Hk.
  - intros (? & ? & Hk). split_and!; [done|done|].
    intros [Hne ?]. by apply Hne, Hk.
Qed.

(** The requests that submit the template form: a permitted POST or PUT
    with a form that validates. *)
Definition submits_template (req : Request) (form : MailTemplateForm)
    : Prop :=
  (method req = POST ∨ method req = PUT)
  ∧ TemplateDetail.permission_required ∈ perms req
  ∧ tf_is_valid form = true.

#[export] Instance submits_template_dec req form :
  Decision (submits_template req form).
Proof. unfold submits_template. apply _. Defined.

(** X20.  A template submission, a permitted POST or PUT with a form that
    validates.  When the URL names a template of the request's event, that
    row is overwritten with the form's values, and if the values changed
    one audit-log entry tagged [update] is written before the row is
    saved.  When the URL names no key, a new row is inserted under a key
    the table did not have, and the journal grows by that creation only:
    the handler logs before it saves, on an instance that has no key yet,
    and no audit-log entry is written.  No other row changes, and success
    is reported. *)
Theorem template_save (req : Request) (form : MailTemplateForm) (w : World) :
  submits_template req form →
  let r := TemplateDetail.dispatch req form w in
  let row := {| tpl_event := event_pk (req_event req);
                tpl_subject := tf_subject form; tpl_text := tf_text form;
                tpl_reply_to := tf_reply_to form;
                tpl_bcc := tf_bcc form |} in
  let entries := appended (journal w) (journal (world_of r)) in
  response_of r = Redirect (mail_templates_url (event_pk (req_event req)))
  ∧ level <$> appended (flash w) (flash (world_of r)) = [SUCCESS]
  ∧ (∀ pk old,
       kwargs_pk req = Some pk →
       event_mail_templates (req_event req) w !! pk = Some old →
       mail_templates (world_of r) = <[pk := row]> (mail_templates w)
       ∧ entries
         = (if tf_has_changed form
            then [LogAction "pretalx.mail_template.update"
                    (TemplateRef (Some pk)) (req_user req) true]
            else [])
           ++ [Saved (TemplateRef (Some pk))])
  ∧ (kwargs_pk req = None →
     let key := fresh_pk (mail_templates w) in
     mail_templates w !! key = None
     ∧ mail_templates (world_of r) = <[key := row]> (mail_templates w)
     ∧ entries = [Created (TemplateRef (Some key))]).
Proof.
  intros (Hm & Hperm & Hvalid) r row entries. subst r entries.
  unfold TemplateDetail.dispatch, PermissionRequired_dispatch.
  rewrite decide_True by done.
  assert (View_dispatch req (Some (render TemplateDetail.template_name))
            (Some (TemplateDetail.post req form))
            (Some (TemplateDetail.post req form))
          = TemplateDetail.post req form) as ->.
  { unfold View_dispatch. by destruct Hm as [-> | ->]. }
  unfold TemplateDetail.post, ProcessFormView_post, TemplateDetail.form_valid,
    TemplateDetail.form_save, TemplateDetail.form_instance,
    TemplateDetail.get_object, response_of, world_of.
  rewrite Hvalid. run.
  destruct (kwargs_pk req) as [pk|]; simpl;
    [destruct (event_mail_templates (req_event req) w !! pk) as [old|]
       eqn:Hold; simpl|];
    destruct (tf_has_changed form); run;
    (split_and!;
     [ done
     | by rewrite appended_app
     | first [done
             |intros ? ? [= <-] Hfound;
              first [congruence
                    |(split; [done|]); rewrite <- ?app_assoc;
                     by rewrite appended_app]]
     | first [done
             |intros _; split_and!;
              [apply fresh_pk_fresh|done|by rewrite appended_app]] ]).
Qed.

Lemma template_save_witness :
  let req := Sample.other_request POST (Some 5) in
  let new := Sample.other_request PUT None in
  let form := {| tf_is_valid := true; tf_has_changed := true;
                 tf_subject := Some "New"; tf_text := Some "Text";
                 tf_reply_to := None; tf_bcc := None |} in
  submits_template req form
  ∧ event_mail_templates (req_event req) Sample.world !! 5
    = Some Sample.foreign_template
  ∧ appended (journal Sample.world)
      (journal (world_of (TemplateDetail.dispatch req form Sample.world)))
    = [LogAction "pretalx.mail_template.update" (TemplateRef (Some 5)) 9
         true;
       Saved (TemplateRef (Some 5))]
  ∧ submits_template new form
  ∧ appended (journal Sample.world)
      (journal (world_of (TemplateDetail.dispatch new form Sample.world)))
    = [Created (TemplateRef (Some 6))].
Proof.
  intros req new form.
  assert (submits_template req form) as Hreq.
  { apply (bool_decide_unpack _). vm_compute. exact I. }
  assert (submits_template new form) as Hnew.
  { apply (bool_decide_unpack _). vm_compute. exact I. }
  assert (event_mail_templates (req_event req) Sample.world !! 5
          = Some Sample.foreign_template) as Hold
    by (vm_compute; reflexivity).
  destruct (template_save req form Sample.world Hreq) as (_ & _ & Hup & _).
  destruct (Hup 5 _ eq_refl Hold) as [_ Hj].
  destruct (template_save new form Sample.world Hnew) as (_ & _ & _ & Hcr).
  destruct (Hcr eq_refl) as (_ & _ & Hj').
  split; [exact Hreq|]. split; [exact Hold|]. split; [exact Hj|].
  split; [exact Hnew|]. etrans; [exact Hj'|]. vm_compute. reflexivity.
Defined.

(** X21.  Deleting the template that [pk] names, for a user who holds the
    permission and whatever the request method.  When the template is not
    one of the request's event the answer is [Http404] and nothing
    changes.  Otherwise the audit-log entry is written, then the row is
    deleted, no other row is touched, and success is reported. *)
Theorem template_delete_outcomes (req : Request) (pk : Z)
    (template : MailTemplate) (w : World) :
  "orga.edit_mail_templates" ∈ perms req →
  kwargs_pk req = Some pk →
  mail_templates w !! pk = Some template →
  let r := TemplateDelete.dispatch req w in
  (tpl_event template ≠ event_pk (req_event req) → r = (Http404, w))
  ∧ (tpl_event template = event_pk (req_event req) →
     response_of r
     = Redirect (mail_templates_url (event_pk (req_event req)))
     ∧ mail_templates (world_of r) = delete pk (mail_templates w)
     ∧ queued_mails (world_of r) = queued_mails w
     ∧ appended (journal w) (journal (world_of r))
       = [LogAction "pretalx.mail_template.delete" (TemplateRef (Some pk))
            (req_user req) true;
          Deleted (TemplateRef (Some pk))]
     ∧ level <$> appended (flash w) (flash (world_of r)) = [SUCCESS]).
Proof.
  intros Hperm Hpk Htemplate r. subst r.
  unfold TemplateDelete.dispatch, PermissionRequired_dispatch, View_dispatch,
    TemplateDelete.get_object, MailTemplate_delete, response_of, world_of.
  rewrite decide_True by done. rewrite Hpk. run.
  assert (event_mail_templates (req_event req) w !! pk
          = if decide (tpl_event template = event_pk (req_event req))
            then Some template else None) as Hlookup.
  { unfold event_mail_templates. case_decide.
    - by apply map_lookup_filter_Some.
    - apply map_lookup_filter_None. right. intros t ?. by simplify_eq. }
  destruct (method req); simpl; rewrite Hlookup;
    (case_decide; simpl; split; try done; intros _;
     split_and!; try done;
     [ rewrite <- ?app_assoc; by rewrite appended_app
     | by rewrite appended_app ]).
Qed.

Lemma template_delete_outcomes_witness :
  let req := Sample.request GET (Some 5) in
  let there := {| event_pk := 2; event_email := "team@z.org" |} in
  let req' := {| method := GET; req_event := there; req_user := 9;
                 perms := Sample.organizer; req_GET := ∅;
                 kwargs_pk := Some 5 |} in
  "orga.edit_mail_templates" ∈ perms req
  ∧ kwargs_pk req = Some 5
  ∧ mail_templates Sample.world !! 5 = Some Sample.foreign_template
  ∧ TemplateDelete.dispatch req Sample.world = (Http404, Sample.world)
  ∧ mail_templates (world_of (TemplateDelete.dispatch req' Sample.world))
    = delete 5 (mail_templates Sample.world).
Proof.
  intros req there req'.
  assert ("orga.edit_mail_templates" ∈ Sample.organizer) as Hperm
    by (apply (bool_decide_unpack _); vm_compute; exact I).
  assert (mail_templates Sample.world !! 5 = Some Sample.foreign_template)
    as Htemplate by (vm_compute; reflexivity).
  destruct (template_delete_outcomes req 5 Sample.foreign_template
              Sample.world Hperm eq_refl Htemplate) as [H404 _].
  destruct (template_delete_outcomes req' 5 Sample.foreign_template
              Sample.world Hperm eq_refl Htemplate) as [_ Hdel].
  split; [exact Hperm|]. split; [reflexivity|]. split; [exact Htemplate|].
  split; [apply H404; discriminate|].
  by destruct (Hdel eq_refl) as (_ & ? & _).
Defined.

(** ** The two listings *)

#[export] Instance desc_id_total : Total desc_id.
Proof. intros a b. unfold desc_id. lia. Qed.

#[export] Instance desc_sent_total : Total desc_sent.
Proof. intros a b. unfold desc_sent. lia. Qed.

Lemma elem_of_order_by_desc_id (qs : gmap Z QueuedMail) k m :
  (k, m) ∈ order_by_desc_id qs ↔ qs !! k = Some m.
Proof.
  unfold order_by_desc_id. rewrite merge_sort_Permutation.
  apply elem_of_map_to_list.
Qed.

Lemma elem_of_order_by_desc_sent (qs : gmap Z QueuedMail) k m :
  (k, m) ∈ order_by_desc_sent qs ↔ qs !! k = Some m.
Proof.
  unfold order_by_desc_sent. rewrite merge_sort_Permutation.
  apply elem_of_map_to_list.
Qed.

Lemma sent_of_event_lookup ev w k :
  sent__notnull (event_queued_mails ev w) !! k =
  match queued_mails w !! k with
  | Some m => if decide (event m = event_pk ev ∧ sent m ≠ None)
              then Some m else None
  | None => None
  end.
Proof.
  unfold sent__notnull.
  destruct (queued_mails w !! k) as [m|] eqn:E.
  - case_decide as Hd.
    + apply map_lookup_filter_Some. rewrite event_queued_mails_lookup, E.
      destruct Hd as [? ?]. by rewrite decide_True.
    + apply map_lookup_filter_None. right. intros m' Hm' ?.
      rewrite event_queued_mails_lookup, E in Hm'.
      case_decide; simplify_eq. by apply Hd.
  - apply map_lookup_filter_None. left.
    by rewrite event_queued_mails_lookup, E.
Qed.

(** X22.  Whatever the filter and sort helpers of the list views do, as
    long as they only select and reorder rows: the outbox page lists
    unsent mails of the request's event only, and the sent page lists
    sent mails of the request's event only. *)
Theorem listings_are_scoped
    (filter_queryset sort_queryset :
       list (Z * QueuedMail) → list (Z * QueuedMail))
    (req : Request) (w : World) (k : Z) (m : QueuedMail) :
  (∀ l x, x ∈ filter_queryset l → x ∈ l) →
  (∀ l x, x ∈ sort_queryset l → x ∈ l) →
  ((k, m) ∈ OutboxList.get_queryset filter_queryset sort_queryset req w →
     queued_mails w !! k = Some m
     ∧ event m = event_pk (req_event req) ∧ sent m = None)
  ∧ ((k, m) ∈ SentMail.get_queryset filter_queryset sort_queryset req w →
     queued_mails w !! k = Some m
     ∧ event m = event_pk (req_event req) ∧ sent m ≠ None).
Proof.
  intros Hfilter Hsort.
  unfold OutboxList.get_queryset, SentMail.get_queryset. split.
  - intros Hin%Hsort%Hfilter. apply elem_of_order_by_desc_id in Hin.
    rewrite unsent_of_event_lookup in Hin.
    destruct (queued_mails w !! k) as [m'|]; [|done].
    case_decide as Hd; simplify_eq. by destruct Hd.
  - intros Hin%Hsort%Hfilter. apply elem_of_order_by_desc_sent in Hin.
    rewrite sent_of_event_lookup in Hin.
    destruct (queued_mails w !! k) as [m'|]; [|done].
    case_decide as Hd; simplify_eq. by destruct Hd.
Qed.

Lemma listings_are_scoped_witness :
  let req := Sample.request GET None in
  (∀ (l : list (Z * QueuedMail)) x, x ∈ id l → x ∈ l)
  ∧ OutboxList.get_queryset id id req Sample.world = [(1, Sample.draft)]
  ∧ SentMail.get_queryset id id req Sample.world = [(2, Sample.delivered)]
  ∧ event Sample.draft = 1 ∧ sent Sample.delivered ≠ None.
Proof.
  intros req.
  assert (∀ (l : list (Z * QueuedMail)) x, x ∈ id l → x ∈ l) as Hid by done.
  assert (OutboxList.get_queryset id id req Sample.world
          = [(1, Sample.draft)]) as Hout by (vm_compute; reflexivity).
  assert (SentMail.get_queryset id id req Sample.world
          = [(2, Sample.delivered)]) as Hsent by (vm_compute; reflexivity).
  destruct (listings_are_scoped id id req Sample.world 1 Sample.draft
              Hid Hid) as [H1 _].
  destruct (listings_are_scoped id id req Sample.world 2 Sample.delivered
              Hid Hid) as [_ H2].
  split; [exact Hid|]. split; [exact Hout|]. split; [exact Hsent|].
  split.
  - apply H1. rewrite Hout. by left.
  - apply H2. rewrite Hsent. by left.
Defined.

(** X23.  Before the filter and sort helpers are applied, the two pages
    split the mails of the event between them: every mail of the event is
    on the outbox page when its [sent] is null and on the sent page
    otherwise, each once; the outbox page is ordered by descending key and
    the sent page by descending [sent] stamp. *)
Theorem base_listings (req : Request) (w : World) :
  let unsent := OutboxList.get_queryset id id req w in
  let sent_ := SentMail.get_queryset id id req w in
  Sorted desc_id unsent
  ∧ Sorted desc_sent sent_
  ∧ NoDup unsent.*1 ∧ NoDup sent_.*1
  ∧ ∀ k m, queued_mails w !! k = Some m →
           event m = event_pk (req_event req) →
           ((k, m) ∈ unsent ↔ sent m = None)
           ∧ ((k, m) ∈ sent_ ↔ sent m ≠ None).
Proof.
  unfold OutboxList.get_queryset, SentMail.get_queryset, id. split_and!.
  - apply (Sorted_merge_sort _).
  - apply (Sorted_merge_sort _).
  - unfold order_by_desc_id. rewrite merge_sort_Permutation.
    apply NoDup_fst_map_to_list.
  - unfold order_by_desc_sent. rewrite merge_sort_Permutation.
    apply NoDup_fst_map_to_list.
  - intros k m Hm He.
    rewrite elem_of_order_by_desc_id, elem_of_order_by_desc_sent.
    rewrite unsent_of_event_lookup, sent_of_event_lookup, Hm. split.
    + case_decide as Hd; [by destruct Hd|].
      split; [done|]. intros ?. by destruct Hd.
    + case_decide as Hd; [by destruct Hd|].
      split; [done|]. intros ?. by destruct Hd.
Qed.

(** ** Permissions *)

(** The permission each view names in [permission_required]. *)
Definition permission_of (route : Route) : string :=
  match route with
  | outbox_list => OutboxList.permission_required
  | sent_mail => SentMail.permission_required
  | outbox_send => OutboxSend.permission_required
  | outbox_purge => OutboxPurge.permission_required
  | mail_detail _ => MailDetail.permission_required
  | mail_copy => MailCopy.permission_required
  | compose_mail _ => ComposeMail.permission_required
  | template_list => TemplateList.permission_required
  | template_detail _ => TemplateDetail.permission_required
  | template_delete => TemplateDelete.permission_required
  end.

Definition with_perms (p : gset string) (req : Request) : Request :=
  {| method := method req; req_event := req_event req;
     req_user := req_user req; perms := p; req_GET := req_GET req;
     kwargs_pk := kwargs_pk req |}.

(** X24.  Where the permission of a view is consulted.  Single-record send
    and purge and mail copy answer in their own [dispatch] before the
    permission check of the mixin is reached: their outcome is the same
    whatever permissions the request carries.  On every other path,
    template delete included, a request without the permission that the
    view names is refused and changes nothing. *)
Theorem where_permissions_are_checked (route : Route) (req : Request)
    (w : World) :
  (acts_in_dispatch route req = true → route ≠ template_delete →
     ∀ p, handle route (with_perms p req) w = handle route req w)
  ∧ (acts_in_dispatch route req = false ∨ route = template_delete →
     permission_of route ∉ perms req →
     handle route req w = (PermissionDenied, w)).
Proof.
  split.
  - intros Hacts Hroute p. destruct route; try done; simpl in *.
    + apply bool_decide_eq_true in Hacts as [pk Hpk].
      unfold OutboxSend.dispatch. simpl. by rewrite Hpk.
    + apply bool_decide_eq_true in Hacts as [pk Hpk].
      unfold OutboxPurge.dispatch. simpl. by rewrite Hpk.
  - intros Hacts Hperm.
    destruct route; simpl in *;
      (destruct Hacts as [Hacts|Hacts]; try done);
      try (apply bool_decide_eq_false in Hacts;
           destruct (kwargs_pk req) eqn:Hk; [by destruct Hacts|]).
    all: unfold OutboxList.dispatch, SentMail.dispatch, OutboxSend.dispatch,
      OutboxPurge.dispatch, MailDetail.dispatch, ComposeMail.dispatch,
      TemplateList.dispatch, TemplateDetail.dispatch, TemplateDelete.dispatch,
      PermissionRequired_dispatch_object, PermissionRequired_dispatch;
      rewrite ?Hk; run; try destruct (MailDetail.get_object req w);
      by rewrite ?decide_False by done.
Qed.
